(** * confd: the redis backend client and the supervisory loop of [main]

    A shallow embedding of [backends/redis/client.go] and of the wait loop
    that ends [main], together with the properties of the specification
    that concern them.

    Go strings are [string] (sequences of bytes), Go's [int] is [Z]
    (64 bits on the supported platforms), [map[string]string] is
    [gmap string string], a nil-able interface or pointer is an [option].
    Calls that leave the program (the file system, the network, the redis
    session) go through a [Backend] acting on an abstract world state, and
    every such call is recorded as an [Event]. *)

From Stdlib Require Import ZArith Ascii Lia.
From stdpp Require Import base option list strings gmap.

Local Open Scope Z_scope.
Set Warnings "-register-all".

(** ** Go's [strings] and [strconv], as far as the client calls them *)

Module GoStrings.

(** [strings.HasPrefix s prefix]. *)
Fixpoint HasPrefix (s prefix : string) {struct prefix} : bool :=
  match prefix, s with
  | EmptyString, _ => true
  | String p prefix', String c s' => bool_decide (p = c) && HasPrefix s' prefix'
  | String _ _, EmptyString => false
  end.

(** The scanner behind [strings.Replace s old new (-1)] for a non-empty
    [old]: occurrences are found from the left and never overlap;
    [skip] counts the bytes of the occurrence just replaced that are
    still to be dropped. *)
Fixpoint replace_from (old new : string) (skip : nat) (s : string) : string :=
  match s with
  | EmptyString => EmptyString
  | String c rest =>
      match skip with
      | S k => replace_from old new k rest
      | O =>
          if HasPrefix s old
          then new +:+ replace_from old new (Nat.pred (String.length old)) rest
          else String c (replace_from old new O rest)
      end
  end.

(** [strings.Replace(s, old, new, -1)]: every occurrence is replaced. *)
Definition ReplaceAll (s old new : string) : string := replace_from old new O s.

(** The scanner behind [strings.Split s sep] for a non-empty [sep];
    [cur] is the segment read so far. *)
Fixpoint split_from (sep : string) (skip : nat) (cur : string) (s : string)
  : list string :=
  match s with
  | EmptyString => [cur]
  | String c rest =>
      match skip with
      | S k => split_from sep k cur rest
      | O =>
          if HasPrefix s sep
          then cur :: split_from sep (Nat.pred (String.length sep)) EmptyString rest
          else split_from sep O (cur +:+ String c EmptyString) rest
      end
  end.

(** [strings.Split(s, sep)]. *)
Definition Split (s sep : string) : list string := split_from sep O EmptyString s.

End GoStrings.

(** Go's [error] interface: the sentinel [redis.ErrNil] and every other
    error value, told apart by its message; [None] is the nil error. *)
Inductive error : Type :=
  | ErrNil
  | ErrOther (msg : string).

Global Instance error_eq_dec : EqDecision error.
Proof. solve_decision. Defined.

Abbreviation go_error := (option error).

(** [err != nil && err != redis.ErrNil]. *)
Definition hard_error (err : go_error) : bool :=
  match err with
  | Some ErrNil => false
  | Some (ErrOther _) => true
  | None => false
  end.

Module GoStrconv.

Definition is_digit (c : ascii) : bool :=
  let n := nat_of_ascii c in (48 <=? n)%nat && (n <=? 57)%nat.

Definition digit_value (c : ascii) : Z := Z.of_nat (nat_of_ascii c) - 48.

(** Value of a run of decimal digits, [None] when a byte is no digit. *)
Fixpoint digits_from (acc : Z) (s : string) : option Z :=
  match s with
  | EmptyString => Some acc
  | String c rest =>
      if is_digit c then digits_from (10 * acc + digit_value c) rest else None
  end.

Definition max_int : Z := 9223372036854775807.
Definition min_int : Z := -9223372036854775808.

Definition ErrSyntax : error := ErrOther "invalid syntax".
Definition ErrRange : error := ErrOther "value out of range".

(** [strconv.ParseInt(s, 10, 0)] on a 64-bit platform: an optional sign,
    then at least one digit and nothing else; a value that does not fit
    comes back clamped, with the range error. *)
Definition ParseInt (s : string) : Z * go_error :=
  let '(neg, body) :=
    match s with
    | String "+" rest => (false, rest)
    | String "-" rest => (true, rest)
    | _ => (false, s)
    end in
  match body with
  | EmptyString => (0, Some ErrSyntax)
  | _ =>
      match digits_from 0 body with
      | None => (0, Some ErrSyntax)
      | Some n =>
          let v := if neg then - n else n in
          if v <? min_int then (min_int, Some ErrRange)
          else if max_int <? v then (max_int, Some ErrRange)
          else (v, None)
      end
  end.

(** [strconv.Atoi(s)]. *)
Definition Atoi (s : string) : Z * go_error := ParseInt s.

End GoStrconv.

(** ** The redigo client library, as far as the client calls it *)

(** A reply as [Conn.Do] hands it over: nil, an [int64], a simple string
    (Go [string]), a bulk string (Go [[]byte]), an error reply
    ([redis.Error]) or an array ([[]interface{}]). *)
Inductive reply : Type :=
  | RNil
  | RInt (n : Z)
  | RStatus (s : string)
  | RBulk (s : string)
  | RError (msg : string)
  | RArray (elems : list reply).

(** An argument of a command: the client passes strings and one [int]. *)
Inductive arg : Type :=
  | AStr (s : string)
  | AInt (n : Z).

Global Instance arg_eq_dec : EqDecision arg.
Proof. solve_decision. Defined.

(** A session handle ([redis.Conn] when it is not nil). *)
Definition conn : Type := nat.

Module Redigo.

Definition unexpected (what : string) : error :=
  ErrOther ("redigo: unexpected type for " +:+ what).

(** [redis.String(reply, err)]. *)
Definition String (r : reply) (err : go_error) : string * go_error :=
  match err with
  | Some e => ("", Some e)
  | None =>
      match r with
      | RBulk s => (s, None)
      | RStatus s => (s, None)
      | RNil => ("", Some ErrNil)
      | RError m => ("", Some (ErrOther m))
      | _ => ("", Some (unexpected "String"))
      end
  end.

(** [redis.Int(reply, err)]. *)
Definition Int (r : reply) (err : go_error) : Z * go_error :=
  match err with
  | Some e => (0, Some e)
  | None =>
      match r with
      | RInt n => (n, None)
      | RBulk s => GoStrconv.ParseInt s
      | RNil => (0, Some ErrNil)
      | RError m => (0, Some (ErrOther m))
      | _ => (0, Some (unexpected "Int"))
      end
  end.

(** [redis.Values(reply, err)]; the nil slice is the empty list. *)
Definition Values (r : reply) (err : go_error) : list reply * go_error :=
  match err with
  | Some e => ([], Some e)
  | None =>
      match r with
      | RArray l => (l, None)
      | RNil => ([], Some ErrNil)
      | RError m => ([], Some (ErrOther m))
      | _ => ([], Some (unexpected "Values"))
      end
  end.

(** The element loop of [redis.Strings]: a nil element leaves the empty
    string, a bulk string is copied, anything else is an error. *)
Fixpoint strings_of (l : list reply) : option (list string) :=
  match l with
  | [] => Some []
  | RNil :: rest => cons "" <$> strings_of rest
  | RBulk s :: rest => cons s <$> strings_of rest
  | _ :: _ => None
  end.

(** [redis.Strings(reply, err)]. *)
Definition Strings (r : reply) (err : go_error) : list string * go_error :=
  match err with
  | Some e => ([], Some e)
  | None =>
      match r with
      | RArray l =>
          match strings_of l with
          | Some ss => (ss, None)
          | None => ([], Some (unexpected "Strings"))
          end
      | RNil => ([], Some ErrNil)
      | RError m => ([], Some (ErrOther m))
      | _ => ([], Some (unexpected "Strings"))
      end
  end.

End Redigo.

(** ** The outside world *)

(** What the program does to the outside, in the order it does it. *)
Inductive Event : Type :=
  | EvStat (address : string) (res : go_error)
  | EvDial (network address : string) (database : Z) (password : string)
           (res : conn + error)
  | EvDo (c : conn) (cmd : string) (args : list arg) (r : reply) (err : go_error)
  | EvFatal (msg : string).

(** The file system, the network and the redis sessions: each call
    answers and moves the world on. *)
Record Backend (W : Type) : Type := {
  be_stat : string -> W -> go_error * W;
  be_dial : string -> string -> Z -> string -> W -> (conn + error) * W;
  be_do : conn -> string -> list arg -> W -> (reply * go_error) * W
}.
Arguments be_stat {W} _ _ _.
Arguments be_dial {W} _ _ _ _ _ _.
Arguments be_do {W} _ _ _ _ _.

(** How a piece of the program ends: it returns, it panics, the process
    exits, or the fuel given to an unbounded loop ran out first. *)
Inductive Res (A : Type) : Type :=
  | Ret (a : A)
  | Panic (msg : string)
  | Exit (code : Z)
  | OutOfFuel.
Arguments Ret {A} _.
Arguments Panic {A} _.
Arguments Exit {A} _.
Arguments OutOfFuel {A}.

(** A computation: from a world to a result, the events it caused and the
    world it leaves. *)
Definition M (W A : Type) : Type := W -> Res A * list Event * W.

Definition ret {W A} (a : A) : M W A := fun w => (Ret a, [], w).

Definition bind {W A B} (m : M W A) (f : A -> M W B) : M W B :=
  fun w =>
    match m w with
    | (Ret a, evs, w') =>
        match f a w' with
        | (r, evs', w'') => (r, evs ++ evs', w'')
        end
    | (Panic msg, evs, w') => (Panic msg, evs, w')
    | (Exit code, evs, w') => (Exit code, evs, w')
    | (OutOfFuel, evs, w') => (OutOfFuel, evs, w')
    end.

Definition panic {W A} (msg : string) : M W A := fun w => (Panic msg, [], w).
Definition out_of_fuel {W A} : M W A := fun w => (OutOfFuel, [], w).

Declare Scope go_scope.
Delimit Scope go_scope with go.
Notation "'let*' x ':=' m 'in' k" := (bind m (fun x => k))
  (at level 10, x pattern, m at level 100, k at level 200) : go_scope.
Local Open Scope go_scope.

Definition result_of {W A} (x : Res A * list Event * W) : Res A := x.1.1.
Definition events_of {W A} (x : Res A * list Event * W) : list Event := x.1.2.
Definition world_of {W A} (x : Res A * list Event * W) : W := x.2.

(** [s[i]] on a slice: a run-time panic when [i] is out of range. *)
Definition slice_index {W A} (s : list A) (i : nat) : M W A :=
  match s !! i with
  | Some x => ret x
  | None => panic "runtime error: index out of range"
  end.

(** [err.Error()]: a nil interface has no method to call. *)
Definition error_Error {W} (err : go_error) : M W string :=
  match err with
  | Some ErrNil => ret "redigo: nil returned"
  | Some (ErrOther msg) => ret msg
  | None => panic "runtime error: invalid memory address or nil pointer dereference"
  end.

(** ** [backends/redis/client.go] *)

(** [type Client struct]; [client] is nil when there is no session. *)
Record Client : Type := {
  client : option conn;
  machines : list string;
  password : string
}.

Definition set_client (c : Client) (cl : option conn) : Client :=
  {| client := cl; machines := machines c; password := password c |}.

(** How the body of a loop leaves it: by [return vars, err] out of the
    enclosing function, or by going on with the map as it is now. *)
Inductive ctl : Type :=
  | Return (vars : gmap string string) (err : go_error)
  | Continue (vars : gmap string string).

(** The scan pattern for a key whose point lookup found nothing
    (lines 153 to 157). *)
Definition scan_pattern (key : string) : string :=
  if decide (key = "/") then "/*" else key +:+ "/*".

(** The key of the point lookup (line 142). *)
Definition lookup_key (key : string) : string := GoStrings.ReplaceAll key "/*" "".

(** [COUNT] argument of every scan call (line 161). *)
Definition pageSize : Z := 1000.

(** The arguments of a scan call at [idx] for [pattern] (line 161). *)
Definition scan_args (idx : Z) (pattern : string) : list arg :=
  [AInt idx; AStr "MATCH"; AStr pattern; AStr "COUNT"; AStr "1000"].

Section Client.

Context {W : Type} (be : Backend W).

(** [os.Stat(address)], of which only the error is looked at. *)
Definition os_Stat (address : string) : M W go_error :=
  fun w => let '(res, w') := be_stat be address w in
           (Ret res, [EvStat address res], w').

(** [redis.Dial(network, address, DialDatabase(database), ...)], with
    [DialPassword(password)] when [password] is not empty. *)
Definition redis_Dial (network address : string) (database : Z) (pw : string)
  : M W (conn + error) :=
  fun w => let '(res, w') := be_dial be network address database pw w in
           (Ret res, [EvDial network address database pw res], w').

(** [rClient.Do(cmd, args...)]; on a nil [rClient] the call panics. *)
Definition conn_Do (rc : option conn) (cmd : string) (args : list arg)
  : M W (reply * go_error) :=
  match rc with
  | None => panic "runtime error: invalid memory address or nil pointer dereference"
  | Some c =>
      fun w => let '((r, err), w') := be_do be c cmd args w in
               (Ret (r, err), [EvDo c cmd args r err], w')
  end.

(** Modelled from the spec: the logger's [Fatal], which lives in the
    repository's [log] package and is not among the sources read here;
    it "terminates the process immediately after logging", with a
    non-zero status (here 1). The other levels ([Info], [Debug],
    [Error]) only write to the log and are left out, except for the
    evaluation of their arguments. *)
Definition log_Fatal {A} (msg : string) : M W A :=
  fun w => (Exit 1, [EvFatal msg], w).

(** The database index of an address (lines 33 to 41). *)
Definition database_of (address : string) (arr : list string) : M W Z :=
  if decide (length arr = 2%nat) then
    let* d := slice_index arr 1 in
    let '(db, err) := GoStrconv.Atoi d in
    match err with
    | Some e =>
        let* msg := error_Error (Some e) in
        log_Fatal ("invalid address: " +:+ address +:+ ", error: " +:+ msg)
    | None => ret db
    end
  else ret 0.

(** The loop of [tryConnect] over the remaining [machines]; [err] is the
    function's [err] variable when the iteration starts. *)
Fixpoint tryConnect_from (ms : list string) (pw : string) (err : go_error)
  : M W (option conn * go_error) :=
  match ms with
  | [] => ret (None, err)
  | address :: rest =>
      let* serr := os_Stat address in
      let network := match serr with None => "unix" | Some _ => "tcp" end in
      let arr := GoStrings.Split address "/" in
      let* database := database_of address arr in
      let* host := slice_index arr 0 in
      let* res := redis_Dial network host database pw in
      match res with
      | inr e => tryConnect_from rest pw (Some e)
      | inl cn => ret (Some cn, None)
      end
  end.

Definition tryConnect (ms : list string) (pw : string)
  : M W (option conn * go_error) :=
  tryConnect_from ms pw None.

(** [resp != "PONG"]: equal only to the Go string ["PONG"]. *)
Definition is_pong (resp : reply) : bool :=
  match resp with
  | RStatus s => bool_decide (s = "PONG")
  | _ => false
  end.

(** [(err != nil && err == redis.ErrNil) || resp != "PONG"]. *)
Definition unusable (resp : reply) (err : go_error) : bool :=
  bool_decide (err = Some ErrNil) || negb (is_pong resp).

(** [func (c *Client) connectedClient()]; the wrapper comes back as the
    call leaves it. *)
Definition connectedClient (c : Client) : M W (Client * (option conn * go_error)) :=
  let* c1 :=
    match client c with
    | Some cl =>
        let* (resp, err) := conn_Do (Some cl) "PING" [] in
        if unusable resp err then
          let* _ := error_Error err in
          ret (set_client c None)
        else ret c
    | None => ret c
    end in
  match client c1 with
  | None =>
      let* (cn, err) := tryConnect (machines c1) (password c1) in
      let c2 := set_client c1 cn in
      match err with
      | Some e => ret (c2, (None, Some e))
      | None => ret (c2, (client c2, None))
      end
  | Some cl => ret (c1, (Some cl, None))
  end.

(** [func NewRedisClient]; the wrapper pointer could be nil by its type. *)
Definition NewRedisClient (ms : list string) (pw : string)
  : M W (option Client * go_error) :=
  let clientWrapper := {| client := None; machines := ms; password := pw |} in
  let* (cn, err) := tryConnect ms pw in
  ret (Some (set_client clientWrapper cn), err).

(** [func (c *Client) Remove]. *)
Definition Remove (c : Client) (key : string) : M W (Client * go_error) :=
  let* (c', (rClient, err)) := connectedClient c in
  if hard_error err then ret (c', err)
  else
    let* (r, e) := conn_Do rClient "DEL" [AStr key] in
    let '(result, err) := Redigo.Int r e in
    match err with
    | None =>
        if 0 <? result then ret (c', None)
        else ret (c', Some (ErrOther ("key:" +:+ key +:+ " not exist")))
    | Some e' => ret (c', Some e')
    end.

(** [func (c *Client) Set]. *)
Definition Set_ (c : Client) (key value : string) : M W (Client * go_error) :=
  let* (c', (rClient, err)) := connectedClient c in
  if hard_error err then ret (c', err)
  else
    let* (_, e) := conn_Do rClient "SET" [AStr key; AStr value] in
    ret (c', e).

(** The loop over the names of one scan page (lines 167 to 175). *)
Fixpoint range_items (rClient : option conn) (items : list string)
    (vars : gmap string string) : M W ctl :=
  match items with
  | [] => ret (Continue vars)
  | item :: rest =>
      let '(newKey, err) := Redigo.String (RStatus item) None in
      match err with
      | Some e => ret (Return vars (Some e))
      | None =>
          let* (r, e) := conn_Do rClient "GET" [AStr newKey] in
          let '(value, err) := Redigo.String r e in
          match err with
          | None => range_items rClient rest (<[newKey := value]> vars)
          | Some _ => range_items rClient rest vars
          end
      end
  end.

(** The pagination loop (lines 159 to 179); [fuel] bounds the number of
    scan calls. *)
Fixpoint scan_loop (fuel : nat) (rClient : option conn) (key : string) (idx : Z)
    (vars : gmap string string) : M W ctl :=
  match fuel with
  | O => out_of_fuel
  | S fuel' =>
      let* (r, e) :=
        conn_Do rClient "SCAN" (scan_args idx key) in
      let '(values, err) := Redigo.Values r e in
      if hard_error err then ret (Return vars err)
      else
        let* v0 := slice_index values 0 in
        let '(idx', _) := Redigo.Int v0 None in
        let* v1 := slice_index values 1 in
        let '(items, _) := Redigo.Strings v1 None in
        let* c := range_items rClient items vars in
        match c with
        | Return vars' err' => ret (Return vars' err')
        | Continue vars' =>
            if decide (idx' = 0) then ret (Continue vars')
            else scan_loop fuel' rClient key idx' vars'
        end
  end.

(** The loop over the requested keys (lines 141 to 181). *)
Fixpoint range_keys (fuel : nat) (rClient : option conn) (keys : list string)
    (vars : gmap string string) : M W (gmap string string * go_error) :=
  match keys with
  | [] => ret (vars, None)
  | key :: rest =>
      let key := lookup_key key in
      let* (r, e) := conn_Do rClient "GET" [AStr key] in
      let '(value, err) := Redigo.String r e in
      match err with
      | None => range_keys fuel rClient rest (<[key := value]> vars)
      | Some e' =>
          if hard_error err then ret (vars, Some e')
          else
            let* c := scan_loop fuel rClient (scan_pattern key) 0 vars in
            match c with
            | Return vars' err' => ret (vars', err')
            | Continue vars' => range_keys fuel rClient rest vars'
            end
      end
  end.

(** [func (c *Client) GetValues]; the map is nil ([None]) when no session
    could be had. *)
Definition GetValues (fuel : nat) (c : Client) (keys : list string)
  : M W (Client * (option (gmap string string) * go_error)) :=
  let* (c', (rClient, err)) := connectedClient c in
  if hard_error err then ret (c', (None, err))
  else
    let* (vars, err') := range_keys fuel rClient keys ∅ in
    ret (c', (Some vars, err')).

End Client.

(** ** The wait loop of [main] (lines 64 to 77) *)

Module Supervisor.

Inductive signal : Type := SIGINT | SIGTERM.

Inductive status : Type :=
  | Running
  | Exited (code : Z)
  | Panicked (msg : string).

(** The channels the loop selects on, and what became of the process.
    [errChan] holds at most 10 errors and [signalChan] one signal;
    the loop never sends on [doneChan], it only closes it. [closes]
    counts the closes that went through and [delivered] the signals
    the runtime has handed over so far. *)
Record state : Type := {
  errChan : list error;
  signalChan : list signal;
  doneClosed : bool;
  closes : nat;
  delivered : nat;
  proc : status
}.

Definition init : state :=
  {| errChan := []; signalChan := []; doneClosed := false; closes := 0;
     delivered := 0; proc := Running |}.

(** What can happen next: the runtime delivers a signal, the processor
    reports an error, or the [select] takes one of its ready cases. *)
Inductive action : Type :=
  | Deliver (s : signal)
  | Report (e : error)
  | SelectErr
  | SelectSignal
  | SelectDone.

(** One step; [None] when the action cannot happen in this state. A
    [select] with several ready cases may take any of them. *)
Definition step (st : state) (a : action) : option state :=
  match proc st with
  | Running =>
      match a with
      | Deliver s =>
          (* signal.Notify never blocks: a signal that finds the
             buffer full is dropped *)
          Some {| errChan := errChan st;
                  signalChan := if decide (length (signalChan st) < 1)%nat
                                then signalChan st ++ [s] else signalChan st;
                  doneClosed := doneClosed st; closes := closes st;
                  delivered := S (delivered st); proc := Running |}
      | Report e =>
          if decide (length (errChan st) < 10)%nat then
            Some {| errChan := errChan st ++ [e]; signalChan := signalChan st;
                    doneClosed := doneClosed st; closes := closes st;
                    delivered := delivered st; proc := Running |}
          else None
      | SelectErr =>
          match errChan st with
          | _ :: rest =>
              Some {| errChan := rest; signalChan := signalChan st;
                      doneClosed := doneClosed st; closes := closes st;
                      delivered := delivered st; proc := Running |}
          | [] => None
          end
      | SelectSignal =>
          match signalChan st with
          | _ :: rest =>
              (* close(doneChan) *)
              if doneClosed st then
                Some {| errChan := errChan st; signalChan := rest;
                        doneClosed := true; closes := closes st;
                        delivered := delivered st;
                        proc := Panicked "close of closed channel" |}
              else
                Some {| errChan := errChan st; signalChan := rest;
                        doneClosed := true; closes := S (closes st);
                        delivered := delivered st; proc := Running |}
          | [] => None
          end
      | SelectDone =>
          if doneClosed st then
            (* os.Exit(0) *)
            Some {| errChan := errChan st; signalChan := signalChan st;
                    doneClosed := true; closes := closes st;
                    delivered := delivered st; proc := Exited 0 |}
          else None
      end
  | _ => None
  end.

(** A schedule run from a state. *)
Fixpoint run (st : state) (sched : list action) : option state :=
  match sched with
  | [] => Some st
  | a :: rest =>
      match step st a with
      | Some st' => run st' rest
      | None => None
      end
  end.

Definition reachable (st : state) : Prop := ∃ sched, run init sched = Some st.

Definition panicked (st : state) : bool :=
  match proc st with
  | Panicked _ => true
  | _ => false
  end.

(** What every state of the loop satisfies: each signal still waiting,
    each close of the done channel and the panic account for a delivered
    signal of their own, and the done channel counts as closed exactly
    when it was closed once. *)
Definition inv (st : state) : Prop :=
  (length (signalChan st) + closes st + (if panicked st then 1 else 0)
   ≤ delivered st)%nat ∧
  (doneClosed st = true -> closes st = 1%nat) ∧
  (doneClosed st = false -> closes st = 0%nat ∧ panicked st = false).

End Supervisor.

(** ** Reading a run's events *)

(** The addresses the connect loop looked at, in order. *)
Fixpoint attempted (evs : list Event) : list string :=
  match evs with
  | [] => []
  | EvStat a _ :: rest => a :: attempted rest
  | _ :: rest => attempted rest
  end.

(** The outcomes of the dials, in order. *)
Fixpoint dial_results (evs : list Event) : list (conn + error) :=
  match evs with
  | [] => []
  | EvDial _ _ _ _ res :: rest => res :: dial_results rest
  | _ :: rest => dial_results rest
  end.

(** The arguments of the scan calls, in order. *)
Fixpoint scan_calls (evs : list Event) : list (list arg) :=
  match evs with
  | [] => []
  | EvDo _ cmd args _ _ :: rest =>
      if decide (cmd = "SCAN") then args :: scan_calls rest else scan_calls rest
  | _ :: rest => scan_calls rest
  end.

(** The number of scan calls. *)
Definition count_scans (evs : list Event) : nat := length (scan_calls evs).

(** The names a scan reply lists, as the client reads them. *)
Definition page_names (r : reply) (err : go_error) : list string :=
  match (Redigo.Values r err).1 !! 1%nat with
  | Some v1 => (Redigo.Strings v1 None).1
  | None => []
  end.

(** The cursor a scan reply carries, as the client reads it. *)
Definition page_cursor (r : reply) (err : go_error) : option Z :=
  match (Redigo.Values r err).1 !! 0%nat with
  | Some v0 => Some (Redigo.Int v0 None).1
  | None => None
  end.

(** The names of all scan pages, in order. *)
Fixpoint matched_names (evs : list Event) : list string :=
  match evs with
  | [] => []
  | EvDo _ cmd _ r err :: rest =>
      if decide (cmd = "SCAN") then page_names r err ++ matched_names rest
      else matched_names rest
  | _ :: rest => matched_names rest
  end.

(** The cursors of all scan pages, in order. *)
Fixpoint scan_cursors (evs : list Event) : list (option Z) :=
  match evs with
  | [] => []
  | EvDo _ cmd _ r err :: rest =>
      if decide (cmd = "SCAN") then page_cursor r err :: scan_cursors rest
      else scan_cursors rest
  | _ :: rest => scan_cursors rest
  end.

(** The keys of the point lookups, in order. *)
Fixpoint get_keys (evs : list Event) : list (list arg) :=
  match evs with
  | [] => []
  | EvDo _ cmd args _ _ :: rest =>
      if decide (cmd = "GET") then args :: get_keys rest else get_keys rest
  | _ :: rest => get_keys rest
  end.

(** One event's contribution to the result map: a point lookup that gave
    a string. *)
Definition fetch_event (vars : gmap string string) (ev : Event) : gmap string string :=
  match ev with
  | EvDo _ cmd [AStr k] r err =>
      if decide (cmd = "GET") then
        match Redigo.String r err with
        | (v, None) => <[k := v]> vars
        | (_, Some _) => vars
        end
      else vars
  | _ => vars
  end.

(** The map the successful point lookups of a run add up to. *)
Definition fetched (evs : list Event) (vars : gmap string string) : gmap string string :=
  foldl fetch_event vars evs.

(** The password each dial was made with, in order. *)
Fixpoint dial_passwords (evs : list Event) : list string :=
  match evs with
  | [] => []
  | EvDial _ _ _ pw _ :: rest => pw :: dial_passwords rest
  | _ :: rest => dial_passwords rest
  end.

(** The names of the commands sent over sessions, in order. *)
Fixpoint commands (evs : list Event) : list string :=
  match evs with
  | [] => []
  | EvDo _ cmd _ _ _ :: rest => cmd :: commands rest
  | _ :: rest => commands rest
  end.

(** No slash occurs in [s]. *)
Fixpoint no_slash (s : string) : bool :=
  match s with
  | EmptyString => true
  | String c rest => negb (bool_decide ("/"%char = c)) && no_slash rest
  end.

(** The transport chosen from the outcome of [os.Stat] (lines 29 to 32). *)
Definition network_of (serr : go_error) : string :=
  match serr with
  | None => "unix"
  | Some _ => "tcp"
  end.

(** ** What the claims ask of endpoints and of the store *)

(** An address that does not make [tryConnect] give up: when it has
    exactly one slash, what follows the slash is an integer. *)
Definition valid_address (address : string) : bool :=
  match GoStrings.Split address "/" with
  | [_; d] => bool_decide ((GoStrconv.Atoi d).2 = None)
  | _ => true
  end.

(** The key of the point lookup as the specification words it: only a
    marker at the very end of the key is taken off. *)
Fixpoint spec_strip_trailing (key : string) : string :=
  match key with
  | EmptyString => EmptyString
  | String c rest =>
      if decide (key = "/*") then EmptyString else String c (spec_strip_trailing rest)
  end.

(** No wildcard marker starts anywhere in [s]. *)
Fixpoint no_marker (s : string) : bool :=
  match s with
  | EmptyString => true
  | String _ rest => negb (GoStrings.HasPrefix s "/*") && no_marker rest
  end.

(** What a pagination that ran to its end looks like from outside: at
    least one and at most [n] scan calls, the first at cursor [idx], all
    for [pattern], the last reply carrying cursor 0, and one point lookup
    for each listed name, in order. *)
Definition paginated (pattern : string) (idx : Z) (n : nat) (evs : list Event) : Prop :=
  (1 ≤ count_scans evs ≤ n)%nat ∧
  head (scan_calls evs) = Some (scan_args idx pattern) ∧
  Forall (λ args, ∃ i, args = scan_args i pattern) (scan_calls evs) ∧
  last (scan_cursors evs) = Some (Some 0) ∧
  get_keys evs = (λ k, [AStr k]) <$> matched_names evs.

Definition ceil_div (a b : Z) : Z := (a + b - 1) / b.

(** The number of scan calls the specification allows for [matchCount]
    matching keys. *)
Definition scan_bound (matchCount : Z) : nat := Z.to_nat (ceil_div matchCount pageSize + 1).

Section Store.

Context {W : Type} (be : Backend W).

(** The worlds a session can be left in by point lookups alone. *)
Inductive gets_reach (cl : conn) : W -> W -> Prop :=
  | gets_none w : gets_reach cl w w
  | gets_more w k w' :
      gets_reach cl (be_do be cl "GET" [AStr k] w).2 w' ->
      gets_reach cl w w'.

(** The store's scan for [pattern], called at cursor [idx] in world [w],
    is back at cursor 0 after at most [n] calls, whatever point lookups
    come between the calls; every reply is an array of a cursor and a
    list of names. *)
Inductive scan_returns (cl : conn) (pattern : string) : nat -> Z -> W -> Prop :=
  | scan_last n idx w w' v0 v1 more :
      be_do be cl "SCAN" (scan_args idx pattern) w
        = ((RArray (v0 :: v1 :: more), None), w') ->
      (Redigo.Int v0 None).1 = 0 ->
      scan_returns cl pattern (S n) idx w
  | scan_next n idx w w' v0 v1 more :
      be_do be cl "SCAN" (scan_args idx pattern) w
        = ((RArray (v0 :: v1 :: more), None), w') ->
      (Redigo.Int v0 None).1 ≠ 0 ->
      (∀ w'', gets_reach cl w' w'' ->
              scan_returns cl pattern n (Redigo.Int v0 None).1 w'') ->
      scan_returns cl pattern (S n) idx w.

(** What the specification says of [tryConnect]: the session of the
    first endpoint whose dial succeeds, no later endpoint tried; or,
    every dial having failed, nil and the last error. *)
Definition tryConnect_spec (ms : list string) (pw : string) (w : W) : Prop :=
  let out := tryConnect be ms pw w in
  (∃ pre a post cn errs,
      ms = pre ++ a :: post ∧
      result_of out = Ret (Some cn, None) ∧
      attempted (events_of out) = pre ++ [a] ∧
      dial_results (events_of out) = (inr <$> errs) ++ [inl cn] ∧
      length errs = length pre)
  ∨ (∃ errs e,
      result_of out = Ret (None, Some e) ∧
      attempted (events_of out) = ms ∧
      dial_results (events_of out) = inr <$> errs ∧
      length errs = length ms ∧
      last errs = Some e).

(** What the specification says of [NewRedisClient]: a wrapper comes
    back whatever the connect loop met; when the loop failed, the error
    comes with it and the wrapper has no session; a wrapper without a
    session runs the connect loop again when next asked for one. *)
Definition NewRedisClient_spec (ms : list string) (pw : string) (w : W) : Prop :=
  ∃ c err evs w',
    NewRedisClient be ms pw w = (Ret (Some c, err), evs, w') ∧
    machines c = ms ∧ password c = pw ∧
    (err ≠ None -> client c = None) ∧
    (client c = None ->
     ∀ w2, events_of (connectedClient be c w2) = events_of (tryConnect be ms pw w2)).

End Store.


Section Serves.

Context {W : Type} (be : Backend W).

(** The world after the names [items] were looked up one by one. *)
Fixpoint after_lookups (cl : conn) (items : list string) (w : W) : W :=
  match items with
  | [] => w
  | item :: rest => after_lookups cl rest (be_do be cl "GET" [AStr item] w).2
  end.

(** Looked up one by one from world [w], each of the names [items] gives
    a string. *)
Fixpoint lookups_succeed (cl : conn) (items : list string) (w : W) : Prop :=
  match items with
  | [] => True
  | item :: rest =>
      (Redigo.String (be_do be cl "GET" [AStr item] w).1.1
                     (be_do be cl "GET" [AStr item] w).1.2).2 = None ∧
      lookups_succeed cl rest (be_do be cl "GET" [AStr item] w).2
  end.

(** The store serves the scan for [pattern] from cursor [idx] in world
    [w] within [n] calls: every reply is an array of a cursor and a list
    of names, each listed name can be fetched when it is looked up right
    after its page, and the cursor is back at 0 after at most [n]
    replies. *)
Inductive scan_serves (cl : conn) (pattern : string) : nat -> Z -> W -> Prop :=
  | serves_last n idx w w' v0 v1 more :
      be_do be cl "SCAN" (scan_args idx pattern) w
        = ((RArray (v0 :: v1 :: more), None), w') ->
      (Redigo.Int v0 None).1 = 0 ->
      lookups_succeed cl (Redigo.Strings v1 None).1 w' ->
      scan_serves cl pattern (S n) idx w
  | serves_next n idx w w' v0 v1 more :
      be_do be cl "SCAN" (scan_args idx pattern) w
        = ((RArray (v0 :: v1 :: more), None), w') ->
      (Redigo.Int v0 None).1 ≠ 0 ->
      lookups_succeed cl (Redigo.Strings v1 None).1 w' ->
      scan_serves cl pattern n (Redigo.Int v0 None).1
        (after_lookups cl (Redigo.Strings v1 None).1 w') ->
      scan_serves cl pattern (S n) idx w.

End Serves.

(** ** The wait loop of [main] with the processor at large

    [main] hands [doneChan] and [errChan] to the processor (lines 48 and
    50), whose code is not among the sources read here. In this model the
    processor may do to them whatever their types allow: report an error,
    nil included, close [errChan], close [doneChan], or send on
    [doneChan]. A panic in any goroutine ends the process. *)
Module MainLoop.

Inductive status : Type :=
  | Running
  | Exited (code : Z)
  | Panicked (msg : string).

(** [errChan] holds at most 10 values and [signalChan] one; [doneChan]
    has no buffer, so a sender waits on it ([doneSender]) until the loop
    receives. [delivered] counts the signals handed over so far. *)
Record state : Type := {
  errChan : list go_error;
  errClosed : bool;
  signalChan : list Supervisor.signal;
  doneClosed : bool;
  doneSender : bool;
  delivered : nat;
  proc : status
}.

Definition init : state :=
  {| errChan := []; errClosed := false; signalChan := []; doneClosed := false;
     doneSender := false; delivered := 0; proc := Running |}.

Inductive action : Type :=
  | Deliver (s : Supervisor.signal)
  | Report (e : go_error)
  | CloseErr
  | CloseDone
  | SendDone
  | SelectErr
  | SelectSignal
  | SelectDone.

Definition with_proc (st : state) (p : status) : state :=
  {| errChan := errChan st; errClosed := errClosed st; signalChan := signalChan st;
     doneClosed := doneClosed st; doneSender := doneSender st;
     delivered := delivered st; proc := p |}.

Definition nil_deref : string :=
  "runtime error: invalid memory address or nil pointer dereference".

(** [close(doneChan)], by whoever calls it: closing a closed channel
    panics, and so does the sender that waits on a channel being
    closed. *)
Definition close_done (st : state) : state :=
  if doneClosed st then with_proc st (Panicked "close of closed channel")
  else if doneSender st then with_proc st (Panicked "send on closed channel")
  else {| errChan := errChan st; errClosed := errClosed st;
          signalChan := signalChan st; doneClosed := true;
          doneSender := doneSender st; delivered := delivered st; proc := Running |}.

(** One step; [None] when the action cannot happen in this state. *)
Definition step (st : state) (a : action) : option state :=
  match proc st with
  | Running =>
      match a with
      | Deliver s =>
          Some {| errChan := errChan st; errClosed := errClosed st;
                  signalChan := if decide (length (signalChan st) < 1)%nat
                                then signalChan st ++ [s] else signalChan st;
                  doneClosed := doneClosed st; doneSender := doneSender st;
                  delivered := S (delivered st); proc := Running |}
      | Report e =>
          if errClosed st then Some (with_proc st (Panicked "send on closed channel"))
          else if decide (length (errChan st) < 10)%nat then
            Some {| errChan := errChan st ++ [e]; errClosed := errClosed st;
                    signalChan := signalChan st; doneClosed := doneClosed st;
                    doneSender := doneSender st; delivered := delivered st;
                    proc := Running |}
          else None
      | CloseErr =>
          if errClosed st then Some (with_proc st (Panicked "close of closed channel"))
          else Some {| errChan := errChan st; errClosed := true;
                       signalChan := signalChan st; doneClosed := doneClosed st;
                       doneSender := doneSender st; delivered := delivered st;
                       proc := Running |}
      | CloseDone => Some (close_done st)
      | SendDone =>
          if doneClosed st then Some (with_proc st (Panicked "send on closed channel"))
          else Some {| errChan := errChan st; errClosed := errClosed st;
                       signalChan := signalChan st; doneClosed := doneClosed st;
                       doneSender := true; delivered := delivered st;
                       proc := Running |}
      | SelectErr =>
          (* err := <-errChan; log.Error(err.Error()) *)
          match errChan st with
          | Some _ :: rest =>
              Some {| errChan := rest; errClosed := errClosed st;
                      signalChan := signalChan st; doneClosed := doneClosed st;
                      doneSender := doneSender st; delivered := delivered st;
                      proc := Running |}
          | None :: rest =>
              Some {| errChan := rest; errClosed := errClosed st;
                      signalChan := signalChan st; doneClosed := doneClosed st;
                      doneSender := doneSender st; delivered := delivered st;
                      proc := Panicked nil_deref |}
          | [] =>
              (* a closed, drained channel hands out the nil error *)
              if errClosed st then Some (with_proc st (Panicked nil_deref)) else None
          end
      | SelectSignal =>
          (* s := <-signalChan; close(doneChan) *)
          match signalChan st with
          | _ :: rest =>
              Some (close_done
                      {| errChan := errChan st; errClosed := errClosed st;
                         signalChan := rest; doneClosed := doneClosed st;
                         doneSender := doneSender st; delivered := delivered st;
                         proc := Running |})
          | [] => None
          end
      | SelectDone =>
          (* <-doneChan; os.Exit(0) *)
          if doneClosed st || doneSender st then Some (with_proc st (Exited 0))
          else None
      end
  | _ => None
  end.

Fixpoint run (st : state) (sched : list action) : option state :=
  match sched with
  | [] => Some st
  | a :: rest =>
      match step st a with
      | Some st' => run st' rest
      | None => None
      end
  end.

Definition panicked (st : state) : bool :=
  match proc st with
  | Panicked _ => true
  | _ => false
  end.

(** What a processor does that keeps to reporting errors: it leaves
    [doneChan] alone, does not close [errChan], and does not report the
    nil error. *)
Definition quiet (a : action) : bool :=
  match a with
  | CloseErr | CloseDone | SendDone | Report None => false
  | _ => true
  end.

(** What holds of the loop's state as long as the processor is quiet. *)
Definition inv (st : state) : Prop :=
  errClosed st = false ∧ doneSender st = false ∧
  Forall (λ e, e ≠ None) (errChan st) ∧
  (length (signalChan st) + (if doneClosed st then 1 else 0)
   + (if panicked st then 1 else 0) ≤ delivered st)%nat ∧
  (doneClosed st = false -> proc st = Running) ∧
  (∀ code, proc st = Exited code -> code = 0).

End MainLoop.

(** ** A small concrete world, to run the client on

    One socket path exists; one network endpoint accepts sessions.
    Session 0 answers the probe, any other session is in a state where
    the probe is answered by something else. The store holds two keys
    under ["/config//"], listed on two scan pages; the key under
    ["/app/"] is listed, but reading it times out; the scan for
    ["/nil/*"] is answered by the nil reply. *)
Module Demo.

Definition stat (address : string) : go_error :=
  if decide (address = "/var/run/store.sock") then None
  else Some (ErrOther "stat: no such file or directory").

Definition dial (network address : string) (database : Z) (pw : string)
  : conn + error :=
  if decide (address = "127.0.0.1:6399") then inl 0%nat
  else inr (ErrOther ("dial " +:+ network +:+ " " +:+ address +:+ ": connection refused")).

Definition get (key : string) : reply * go_error :=
  if decide (key = "/config//a") then (RBulk "1", None)
  else if decide (key = "/config//b") then (RBulk "2", None)
  else if decide (key = "/app/db") then (RNil, Some (ErrOther "read tcp: i/o timeout"))
  else (RNil, None).

Definition scan (idx : Z) (pattern : string) : reply * go_error :=
  if decide (pattern = "/config//*") then
    if decide (idx = 0) then (RArray [RBulk "17"; RArray [RBulk "/config//a"]], None)
    else (RArray [RBulk "0"; RArray [RBulk "/config//b"]], None)
  else if decide (pattern = "/app/*") then
    (RArray [RBulk "0"; RArray [RBulk "/app/db"]], None)
  else if decide (pattern = "/nil/*") then (RNil, None)
  else (RArray [RBulk "0"; RArray []], None).

Definition exec (c : conn) (cmd : string) (args : list arg) : reply * go_error :=
  match args with
  | [] =>
      if decide (cmd = "PING") then
        if decide (c = 0%nat) then (RStatus "PONG", None) else (RStatus "QUEUED", None)
      else (RError "ERR unknown command", Some (ErrOther "ERR unknown command"))
  | [AStr key] =>
      if decide (cmd = "GET") then get key
      else (RError "ERR unknown command", Some (ErrOther "ERR unknown command"))
  | [AInt idx; AStr _; AStr pattern; AStr _; AStr _] =>
      if decide (cmd = "SCAN") then scan idx pattern
      else (RError "ERR unknown command", Some (ErrOther "ERR unknown command"))
  | _ => (RError "ERR unknown command", Some (ErrOther "ERR unknown command"))
  end.

(** The world never changes: every answer depends on the call alone. *)
Definition backend : Backend unit :=
  {| be_stat := fun a w => (stat a, w);
     be_dial := fun n a d p w => (dial n a d p, w);
     be_do := fun c cmd args w => (exec c cmd args, w) |}.

Definition live : Client :=
  {| client := Some 0%nat; machines := ["127.0.0.1:6399"]; password := "" |}.

Definition stuck : Client :=
  {| client := Some 9%nat; machines := ["127.0.0.1:6399"]; password := "" |}.

End Demo.

(** ** A store to run the client against

    The world is the content of the store. Every session answers the
    probe; [GET], [SET] and [DEL] read, write and delete one key; a scan
    lists, on a single page, the keys that match the pattern, where only
    a star at the end of the pattern is a wildcard. No path exists on the
    file system and one endpoint accepts sessions. *)
Module Store.

Fixpoint glob (pattern key : string) : bool :=
  match pattern with
  | EmptyString => bool_decide (key = EmptyString)
  | String "*" EmptyString => true
  | String p pattern' =>
      match key with
      | String c key' => bool_decide (p = c) && glob pattern' key'
      | EmptyString => false
      end
  end.

Definition unknown : reply * go_error :=
  (RError "ERR unknown command", Some (ErrOther "ERR unknown command")).

Definition exec (c : conn) (cmd : string) (args : list arg) (m : gmap string string)
  : (reply * go_error) * gmap string string :=
  match args with
  | [] => if decide (cmd = "PING") then ((RStatus "PONG", None), m) else (unknown, m)
  | [AStr key] =>
      if decide (cmd = "GET") then
        match m !! key with
        | Some v => ((RBulk v, None), m)
        | None => ((RNil, None), m)
        end
      else if decide (cmd = "DEL") then
        match m !! key with
        | Some _ => ((RInt 1, None), delete key m)
        | None => ((RInt 0, None), m)
        end
      else (unknown, m)
  | [AStr key; AStr value] =>
      if decide (cmd = "SET") then ((RStatus "OK", None), <[key := value]> m)
      else (unknown, m)
  | [AInt _; AStr _; AStr pattern; AStr _; AStr _] =>
      if decide (cmd = "SCAN") then
        ((RArray [RBulk "0";
                  RArray (RBulk <$> filter (λ k, glob pattern k = true)
                                      (map_to_list m).*1)], None), m)
      else (unknown, m)
  | _ => (unknown, m)
  end.

Definition backend : Backend (gmap string string) :=
  {| be_stat := fun a m => (Some (ErrOther "stat: no such file or directory"), m);
     be_dial := fun n a d p m =>
       (if decide (a = "127.0.0.1:6379") then inl 0%nat
        else inr (ErrOther "dial: connection refused"), m);
     be_do := exec |}.

Definition wrapper : Client :=
  {| client := Some 0%nat; machines := ["127.0.0.1:6379"]; password := "" |}.

End Store.

(** * Properties *)

(** ** The library functions on the inputs of the specification *)

Example split_db : GoStrings.Split "127.0.0.1:6399/2" "/" = ["127.0.0.1:6399"; "2"].
Proof. reflexivity. Qed.

Example split_sock :
  GoStrings.Split "/var/run/store.sock" "/" = [""; "var"; "run"; "store.sock"].
Proof. reflexivity. Qed.

Example replace_mid : GoStrings.ReplaceAll "/a/*/b/*" "/*" "" = "/a/b".
Proof. reflexivity. Qed.

Example atoi_2 : GoStrconv.Atoi "2" = (2, None).
Proof. reflexivity. Qed.

Example atoi_x : GoStrconv.Atoi "x" = (0, Some GoStrconv.ErrSyntax).
Proof. reflexivity. Qed.

Example demo_get_config :
  result_of (GetValues Demo.backend 5 Demo.live ["/config/"] tt)
  = Ret (Demo.live, (Some (<["/config//b" := "2"]> (<["/config//a" := "1"]> ∅)), None)).
Proof. vm_compute. reflexivity. Qed.


(** ** The key of the point lookup *)

Lemma HasPrefix_marker_app (c : ascii) (a rest : string) :
  GoStrings.HasPrefix (String c a) "/*" = false ->
  GoStrings.HasPrefix (String c (a +:+ "/*" +:+ rest)) "/*" = false.
Proof.
  cbn [GoStrings.HasPrefix].
  destruct (bool_decide ("/"%char = c)); [|done].
  destruct a as [|d a]; [intros _; reflexivity|].
  simpl. by destruct (bool_decide ("*"%char = d)).
Qed.

Lemma lookup_key_marker (rest : string) : lookup_key ("/*" +:+ rest) = lookup_key rest.
Proof. reflexivity. Qed.

Lemma lookup_key_other (c : ascii) (s : string) :
  GoStrings.HasPrefix (String c s) "/*" = false ->
  lookup_key (String c s) = String c (lookup_key s).
Proof.
  intros H. unfold lookup_key, GoStrings.ReplaceAll.
  cbn [GoStrings.replace_from]. by rewrite H.
Qed.

Lemma lookup_key_no_marker (a : string) : no_marker a = true -> lookup_key a = a.
Proof.
  induction a as [|c a IH]; [done|].
  cbn [no_marker]. intros [Hc Ha]%andb_prop.
  apply negb_true_iff in Hc.
  rewrite lookup_key_other by done. by rewrite IH.
Qed.

Lemma lookup_key_app_marker (a rest : string) :
  no_marker a = true ->
  lookup_key (a +:+ "/*" +:+ rest) = a +:+ lookup_key rest.
Proof.
  induction a as [|c a IH].
  - intros _. apply lookup_key_marker.
  - cbn [no_marker]. intros [Hc Ha]%andb_prop.
    apply negb_true_iff in Hc.
    change (String c a +:+ "/*" +:+ rest) with (String c (a +:+ "/*" +:+ rest)).
    rewrite lookup_key_other by by apply HasPrefix_marker_app.
    rewrite IH by done. done.
Qed.

(** C4, as stated, fails: a marker in the middle of a key is taken out as
    well, so the key looked up is not the requested key with only a trailing
    marker removed. *)
Lemma C4_counterexample :
  lookup_key "/a/*/b" = "/a/b" ∧ spec_strip_trailing "/a/*/b" = "/a/*/b" ∧
  lookup_key "/a/*/b" ≠ spec_strip_trailing "/a/*/b".
Proof. split; [reflexivity|]. split; [reflexivity|]. discriminate. Qed.

(** C4, amended: the key of the point lookup is the requested key with
    every wildcard marker taken out, going from the left; a key without a
    marker is looked up as it is, and in a key that has one, what stands
    before the first marker is kept and what follows it is treated the
    same way. *)
Theorem C4_lookup_key_strips_every_marker (a : string) :
  no_marker a = true ->
  lookup_key a = a ∧ ∀ rest, lookup_key (a +:+ "/*" +:+ rest) = a +:+ lookup_key rest.
Proof.
  intros Ha. split; [by apply lookup_key_no_marker|].
  intros rest. by apply lookup_key_app_marker.
Qed.

Lemma C4_witness :
  no_marker "/a" = true ∧
  lookup_key "/a" = "/a" ∧ lookup_key ("/a" +:+ "/*" +:+ "/b/*") = "/a" +:+ "/b".
Proof.
  split; [reflexivity|].
  destruct (C4_lookup_key_strips_every_marker "/a" eq_refl) as [H1 H2].
  split; [exact H1|]. rewrite (H2 "/b/*"). reflexivity.
Defined.

(** ** Running a computation step by step *)

Section Run.

Context {W A B : Type}.

Lemma bind_ret_l (a : A) (f : A -> M W B) (w : W) : bind (ret a) f w = f a w.
Proof. unfold bind, ret. by destruct (f a w) as [[r evs] w']. Qed.

Lemma bind_Ret (m : M W A) (f : A -> M W B) (w w' : W) (a : A) (evs : list Event) :
  m w = (Ret a, evs, w') ->
  bind m f w = (result_of (f a w'), evs ++ events_of (f a w'), world_of (f a w')).
Proof. unfold bind. intros ->. by destruct (f a w') as [[r evs'] w'']. Qed.

Lemma bind_Panic (m : M W A) (f : A -> M W B) (w w' : W) (msg : string)
    (evs : list Event) :
  m w = (Panic msg, evs, w') -> bind m f w = (Panic msg, evs, w').
Proof. unfold bind. by intros ->. Qed.

Lemma bind_Exit (m : M W A) (f : A -> M W B) (w w' : W) (code : Z)
    (evs : list Event) :
  m w = (Exit code, evs, w') -> bind m f w = (Exit code, evs, w').
Proof. unfold bind. by intros ->. Qed.

Lemma bind_OutOfFuel (m : M W A) (f : A -> M W B) (w w' : W) (evs : list Event) :
  m w = (OutOfFuel, evs, w') -> bind m f w = (OutOfFuel, evs, w').
Proof. unfold bind. by intros ->. Qed.

End Run.

Lemma bind_assoc {W A B C : Type} (m : M W A) (f : A -> M W B) (g : B -> M W C) (w : W) :
  bind (bind m f) g w = bind m (fun a => bind (f a) g) w.
Proof.
  unfold bind. destruct (m w) as [[[a| | |] evs] w1]; try done.
  destruct (f a w1) as [[[b| | |] evs1] w2]; try done.
  destruct (g b w2) as [[r evs2] w3]. by rewrite app_assoc.
Qed.

(** ** The connect loop *)

Lemma split_from_cons (sep : string) (skip : nat) (cur s : string) :
  ∃ x xs, GoStrings.split_from sep skip cur s = x :: xs.
Proof.
  revert skip cur. induction s as [|c s IH]; intros skip cur; cbn [GoStrings.split_from].
  - eauto.
  - destruct skip as [|k]; [|apply IH].
    destruct (GoStrings.HasPrefix (String c s) sep); [eauto | apply IH].
Qed.

Lemma Split_cons (s sep : string) : ∃ x xs, GoStrings.Split s sep = x :: xs.
Proof. apply split_from_cons. Qed.

Section ConnectLoop.

Context {W : Type} (be : Backend W).

Lemma database_of_two (address x d : string) (w : W) :
  match GoStrconv.Atoi d with
  | (db, None) => database_of address [x; d] w = (Ret db, [], w)
  | (_, Some _) => ∃ msg, database_of address [x; d] w = (Exit 1, [EvFatal msg], w)
  end.
Proof.
  unfold database_of. cbn [length]. rewrite decide_True by done.
  cbn [slice_index lookup list_lookup]. rewrite bind_ret_l.
  destruct (GoStrconv.Atoi d) as [db [e|]]; [|done].
  destruct e; cbn; eauto.
Qed.

(** An address that is well formed costs the world nothing to take
    apart. *)
Lemma database_of_valid (address : string) (w : W) :
  valid_address address = true ->
  ∃ db, database_of address (GoStrings.Split address "/") w = (Ret db, [], w).
Proof.
  unfold valid_address.
  destruct (GoStrings.Split address "/") as [|x [|d [|y l]]];
    try (intros _; by eexists).
  intros Hd%bool_decide_eq_true.
  pose proof (database_of_two address x d w) as H.
  destruct (GoStrconv.Atoi d) as [db err]. cbn in Hd. subst err. eauto.
Qed.

(** An address that is not well formed ends the process. *)
Lemma database_of_invalid (address : string) (w : W) :
  valid_address address = false ->
  ∃ msg, database_of address (GoStrings.Split address "/") w
         = (Exit 1, [EvFatal msg], w).
Proof.
  unfold valid_address.
  destruct (GoStrings.Split address "/") as [|x [|d [|y l]]]; try done.
  intros Hd%bool_decide_eq_false.
  pose proof (database_of_two address x d w) as H.
  destruct (GoStrconv.Atoi d) as [db [e|]]; cbn in Hd; done.
Qed.

Lemma os_Stat_run (address : string) (w : W) :
  os_Stat be address w
  = (Ret (be_stat be address w).1, [EvStat address (be_stat be address w).1],
     (be_stat be address w).2).
Proof. unfold os_Stat. by destruct (be_stat be address w). Qed.

Lemma redis_Dial_run (network address : string) (db : Z) (pw : string) (w : W) :
  redis_Dial be network address db pw w
  = (Ret (be_dial be network address db pw w).1,
     [EvDial network address db pw (be_dial be network address db pw w).1],
     (be_dial be network address db pw w).2).
Proof. unfold redis_Dial. by destruct (be_dial be network address db pw w). Qed.

(** One turn of the loop on a well-formed address: the file system is
    asked, then the endpoint is dialled; a failure leads to the next
    address. *)
Lemma tryConnect_from_cons (a : string) (ms : list string) (pw : string)
    (err : go_error) (w : W) :
  valid_address a = true ->
  ∃ network host db,
    let serr := (be_stat be a w).1 in
    let res := be_dial be network host db pw (be_stat be a w).2 in
    let next e := tryConnect_from be ms pw (Some e) res.2 in
    tryConnect_from be (a :: ms) pw err w
    = match res.1 with
      | inl cn =>
          (Ret (Some cn, None),
           [EvStat a serr; EvDial network host db pw (inl cn)], res.2)
      | inr e =>
          (result_of (next e),
           EvStat a serr :: EvDial network host db pw (inr e) :: events_of (next e),
           world_of (next e))
      end.
Proof.
  intros Ha. cbn [tryConnect_from].
  erewrite bind_Ret by apply os_Stat_run.
  destruct (database_of_valid a (be_stat be a w).2 Ha) as [db Hdb].
  erewrite bind_Ret by apply Hdb.
  destruct (Split_cons a "/") as (host & more & ->).
  cbn [slice_index lookup list_lookup]. rewrite bind_ret_l.
  erewrite bind_Ret by apply redis_Dial_run.
  exists (match (be_stat be a w).1 with None => "unix" | Some _ => "tcp" end), host, db.
  cbn zeta.
  destruct (be_dial be _ host db pw (be_stat be a w).2) as [[cn|e] w2];
    unfold result_of, events_of, world_of; cbn; reflexivity.
Qed.

Lemma tryConnect_from_spec (ms : list string) (pw : string) (err : go_error) (w : W) :
  Forall (λ a, valid_address a = true) ms ->
  let out := tryConnect_from be ms pw err w in
  (∃ pre a post cn errs,
      ms = pre ++ a :: post ∧
      result_of out = Ret (Some cn, None) ∧
      attempted (events_of out) = pre ++ [a] ∧
      dial_results (events_of out) = (inr <$> errs) ++ [inl cn] ∧
      length errs = length pre)
  ∨ (∃ errs,
      result_of out = Ret (None, from_option Some err (last errs)) ∧
      attempted (events_of out) = ms ∧
      dial_results (events_of out) = inr <$> errs ∧
      length errs = length ms).
Proof.
  intros Hv. revert err w. induction Hv as [|a ms Ha Hms IH]; intros err w.
  - right. exists []. done.
  - destruct (tryConnect_from_cons a ms pw err w Ha) as (network & host & db & Heq).
    cbn zeta in *. rewrite Heq. clear Heq.
    destruct (be_dial be network host db pw (be_stat be a w).2) as [[cn|e] w2].
    + left. exists [], a, ms, cn, []. done.
    + cbn [fst snd]. specialize (IH (Some e) w2).
      destruct (tryConnect_from be ms pw (Some e) w2) as [[r evs] w3].
      unfold result_of, events_of, world_of in *. cbn [fst snd] in *.
      destruct IH as [(pre & b & post & cn & errs & -> & Hr & Hat & Hd & Hl)
                     |(errs & Hr & Hat & Hd & Hl)].
      * left. exists (a :: pre), b, post, cn, (e :: errs).
        cbn. rewrite Hat, Hd, Hl. done.
      * right. exists (e :: errs).
        cbn. rewrite Hat, Hd, Hl. split_and!; try done.
        rewrite Hr. destruct errs as [|e' errs]; [done|].
        rewrite last_cons_cons.
        destruct (last (e' :: errs)) eqn:E; [done|]. by apply last_None in E.
Qed.

(** On well-formed addresses the connect loop always returns. *)
Lemma tryConnect_returns (ms : list string) (pw : string) (w : W) :
  Forall (λ a, valid_address a = true) ms ->
  ∃ cn err, result_of (tryConnect be ms pw w) = Ret (cn, err) ∧
            (err ≠ None -> cn = None).
Proof.
  intros Hv. destruct (tryConnect_from_spec ms pw None w Hv)
    as [(pre & a & post & cn & errs & _ & Hr & _)|(errs & Hr & _)];
    unfold tryConnect; rewrite Hr; eexists _, _; (split; [reflexivity|done]).
Qed.

(** A wrapper without a session asks the connect loop for one. *)
Lemma connectedClient_no_session (c : Client) (w : W) :
  client c = None ->
  events_of (connectedClient be c w)
  = events_of (tryConnect be (machines c) (password c) w).
Proof.
  intros Hc. unfold connectedClient. rewrite Hc, bind_ret_l, Hc.
  unfold bind, events_of.
  destruct (tryConnect be (machines c) (password c) w)
    as [[[[cn [e|]]| | |] evs] w']; cbn; by rewrite ?app_nil_r.
Qed.

(** C6, amended: for every non-empty endpoint list in which each address
    with exactly one slash has an integer after the slash, [tryConnect]
    returns the session of the first endpoint, in listed order, whose
    dial succeeds, and tries no endpoint after it; when every dial fails
    it returns nil together with the error of the last dial. *)
Theorem C6_tryConnect_first_success (ms : list string) (pw : string) (w : W) :
  ms ≠ [] ->
  Forall (λ a, valid_address a = true) ms ->
  tryConnect_spec be ms pw w.
Proof.
  intros Hne Hv. unfold tryConnect_spec, tryConnect. cbn zeta.
  destruct (tryConnect_from_spec ms pw None w Hv)
    as [(pre & a & post & cn & errs & Hms & Hr & Hat & Hd & Hl)
       |(errs & Hr & Hat & Hd & Hl)].
  - left. exists pre, a, post, cn, errs. done.
  - right. destruct (last errs) as [e|] eqn:He.
    + exists errs, e. done.
    + apply last_None in He. subst errs. by destruct ms.
Qed.

(** C10, amended: for every endpoint list in which each address with
    exactly one slash has an integer after the slash, and every
    credential, [NewRedisClient] returns a wrapper that is not nil; when
    the connect loop failed, its error comes with the wrapper and the
    wrapper has no session; a wrapper without a session runs the connect
    loop over its endpoint list when it is next asked for a session. *)
Theorem C10_NewRedisClient_wrapper (ms : list string) (pw : string) (w : W) :
  Forall (λ a, valid_address a = true) ms ->
  NewRedisClient_spec be ms pw w.
Proof.
  intros Hv. destruct (tryConnect_returns ms pw w Hv) as (cn & err & Hr & Herr).
  unfold NewRedisClient_spec, NewRedisClient.
  destruct (tryConnect be ms pw w) as [[r evs] w'] eqn:Hrun.
  unfold result_of in Hr. cbn in Hr. subst r.
  erewrite bind_Ret by apply Hrun.
  eexists _, _, _, _. split; [reflexivity|]. cbn.
  split_and!; try done.
  intros Hc w2. by rewrite connectedClient_no_session.
Qed.

End ConnectLoop.

(** C6, as stated, fails: an address whose database suffix is no integer
    ends the process, so nothing is returned, although the endpoint named
    before the slash would have accepted a session. *)
Lemma C6_counterexample :
  result_of (tryConnect Demo.backend ["127.0.0.1:6399/x"] "" tt) = Exit 1 ∧
  ¬ tryConnect_spec Demo.backend ["127.0.0.1:6399/x"] "" tt.
Proof.
  split; [reflexivity|].
  intros [(pre & a & post & cn & errs & _ & Hr & _)|(errs & e & Hr & _)];
    vm_compute in Hr; discriminate Hr.
Qed.

Lemma C6_witness :
  let ms := ["10.0.0.1:6379"; "127.0.0.1:6399/2"; "10.0.0.3:6379"] in
  ms ≠ [] ∧ Forall (λ a, valid_address a = true) ms ∧
  tryConnect_spec Demo.backend ms "" tt.
Proof.
  cbn zeta.
  assert (Forall (λ a, valid_address a = true)
            ["10.0.0.1:6379"; "127.0.0.1:6399/2"; "10.0.0.3:6379"]) as Hv
    by (repeat constructor).
  split; [discriminate|]. split; [exact Hv|].
  apply C6_tryConnect_first_success; [discriminate | exact Hv].
Defined.

(** The run behind the witness: the first endpoint refuses, the second
    accepts, the third is never looked at. *)
Example tryConnect_second_endpoint :
  tryConnect Demo.backend ["10.0.0.1:6379"; "127.0.0.1:6399/2"; "10.0.0.3:6379"] "" tt
  = (Ret (Some 0%nat, None),
     [EvStat "10.0.0.1:6379" (Some (ErrOther "stat: no such file or directory"));
      EvDial "tcp" "10.0.0.1:6379" 0 ""
        (inr (ErrOther "dial tcp 10.0.0.1:6379: connection refused"));
      EvStat "127.0.0.1:6399/2" (Some (ErrOther "stat: no such file or directory"));
      EvDial "tcp" "127.0.0.1:6399" 2 "" (inl 0%nat)],
     tt).
Proof. reflexivity. Qed.

(** C10, as stated, fails: on an address whose database suffix is no
    integer the process ends inside the connect loop and no wrapper is
    returned. *)
Lemma C10_counterexample :
  result_of (NewRedisClient Demo.backend ["127.0.0.1:6399/x"] "secret" tt) = Exit 1 ∧
  ¬ NewRedisClient_spec Demo.backend ["127.0.0.1:6399/x"] "secret" tt.
Proof.
  split; [reflexivity|].
  intros (c & err & evs & w' & Hr & _). vm_compute in Hr. discriminate Hr.
Qed.

Lemma C10_witness :
  Forall (λ a, valid_address a = true) ["10.0.0.1:6379"; "10.0.0.2:6379/1"] ∧
  NewRedisClient_spec Demo.backend ["10.0.0.1:6379"; "10.0.0.2:6379/1"] "secret" tt.
Proof.
  assert (Forall (λ a, valid_address a = true) ["10.0.0.1:6379"; "10.0.0.2:6379/1"])
    as Hv by (repeat constructor).
  split; [exact Hv|]. apply C10_NewRedisClient_wrapper. exact Hv.
Defined.

(** The run behind the witness: no endpoint accepts, the wrapper comes
    back without a session and with the last error. *)
Example NewRedisClient_unreachable :
  result_of (NewRedisClient Demo.backend ["10.0.0.1:6379"; "10.0.0.2:6379/1"] "secret" tt)
  = Ret (Some {| client := None; machines := ["10.0.0.1:6379"; "10.0.0.2:6379/1"];
                 password := "secret" |},
         Some (ErrOther "dial tcp 10.0.0.2:6379: connection refused")).
Proof. reflexivity. Qed.

(** ** Endpoint addresses *)

(** The network half of C7 holds: the address is split at its slash,
    the database index is read, the host is dialled over tcp. *)
Example tryConnect_network_endpoint :
  tryConnect Demo.backend ["127.0.0.1:6399/2"] "" tt
  = (Ret (Some 0%nat, None),
     [EvStat "127.0.0.1:6399/2" (Some (ErrOther "stat: no such file or directory"));
      EvDial "tcp" "127.0.0.1:6399" 2 "" (inl 0%nat)],
     tt).
Proof. reflexivity. Qed.

(** C7, the socket half, on the code: the existing path
    ["/var/run/store.sock"] selects the unix transport and database 0, but
    what is dialled is the text before the first slash of the path, which
    is empty, and not the path. *)
Theorem C7_socket_path_not_dialled :
  tryConnect Demo.backend ["/var/run/store.sock"] "" tt
  = (Ret (None, Some (ErrOther "dial unix : connection refused")),
     [EvStat "/var/run/store.sock" None;
      EvDial "unix" "" 0 "" (inr (ErrOther "dial unix : connection refused"))],
     tt).
Proof. reflexivity. Qed.

(** ** The liveness probe *)

Section Probe.

Context {W : Type} (be : Backend W).

Lemma conn_Do_run (c : conn) (cmd : string) (args : list arg) (w w' : W)
    (r : reply) (err : go_error) :
  be_do be c cmd args w = ((r, err), w') ->
  conn_Do be (Some c) cmd args w = (Ret (r, err), [EvDo c cmd args r err], w').
Proof. unfold conn_Do. by intros ->. Qed.

(** A session that answers the probe is handed back as it is, and nothing
    is dialled. *)
Lemma connectedClient_pong (c : Client) (cl : conn) (w w1 : W) :
  client c = Some cl ->
  be_do be cl "PING" [] w = ((RStatus "PONG", None), w1) ->
  connectedClient be c w
  = (Ret (c, (Some cl, None)), [EvDo cl "PING" [] (RStatus "PONG") None], w1).
Proof.
  intros Hc Hping. unfold connectedClient. rewrite Hc, bind_assoc.
  erewrite (bind_Ret (conn_Do be (Some cl) "PING" [])) by by apply conn_Do_run.
  assert (unusable (RStatus "PONG") None = false) as Hu by reflexivity.
  cbn beta iota. rewrite Hu, bind_ret_l, Hc. reflexivity.
Qed.

(** A probe that fails with an error drops the session and runs the
    connect loop, once, over the whole endpoint list. *)
Lemma connectedClient_probe_error (c : Client) (cl : conn) (w w1 : W)
    (resp : reply) (e : error) :
  client c = Some cl ->
  be_do be cl "PING" [] w = ((resp, Some e), w1) ->
  is_pong resp = false ->
  let out := tryConnect be (machines c) (password c) w1 in
  events_of (connectedClient be c w)
  = EvDo cl "PING" [] resp (Some e) :: events_of out ∧
  match result_of out with
  | Ret (cn, None) =>
      result_of (connectedClient be c w) = Ret (set_client c cn, (cn, None))
  | Ret (cn, Some e') =>
      result_of (connectedClient be c w) = Ret (set_client c cn, (None, Some e'))
  | Panic msg => result_of (connectedClient be c w) = Panic msg
  | Exit code => result_of (connectedClient be c w) = Exit code
  | OutOfFuel => result_of (connectedClient be c w) = OutOfFuel
  end.
Proof.
  intros Hc Hping Hresp. cbn zeta. unfold connectedClient. rewrite Hc, bind_assoc.
  erewrite (bind_Ret (conn_Do be (Some cl) "PING" [])) by by apply conn_Do_run.
  unfold unusable. rewrite Hresp, orb_true_r.
  assert (∃ msg, error_Error (W:=W) (Some e) = ret msg) as [msg Hmsg]
    by (destruct e; eauto).
  cbn beta iota. rewrite Hmsg, bind_assoc, !bind_ret_l.
  cbn [client set_client machines password].
  unfold bind, result_of, events_of, world_of.
  destruct (tryConnect be (machines c) (password c) w1)
    as [[[[cn [e'|]]| | |] evs] w2]; cbn; by rewrite ?app_nil_r.
Qed.

(** A probe answered, without an error, by anything but the Go string
    ["PONG"] makes the call panic before the session is dropped: nothing is
    dialled. *)
Lemma connectedClient_probe_other (c : Client) (cl : conn) (w w1 : W) (resp : reply) :
  client c = Some cl ->
  be_do be cl "PING" [] w = ((resp, None), w1) ->
  is_pong resp = false ->
  ∃ msg, connectedClient be c w = (Panic msg, [EvDo cl "PING" [] resp None], w1).
Proof.
  intros Hc Hping Hresp. unfold connectedClient. rewrite Hc, bind_assoc.
  erewrite (bind_Ret (conn_Do be (Some cl) "PING" [])) by by apply conn_Do_run.
  unfold unusable. rewrite Hresp, orb_true_r.
  cbn beta iota. rewrite bind_assoc. eexists. reflexivity.
Qed.

End Probe.

(** C2 on the code: a session whose probe is answered by ["QUEUED"], with
    no error, is neither dropped nor replaced; the call panics on the nil
    error it means to log, and no endpoint is dialled. *)
Theorem C2_probe_reply_panics :
  connectedClient Demo.backend Demo.stuck tt
  = (Panic "runtime error: invalid memory address or nil pointer dereference",
     [EvDo 9%nat "PING" [] (RStatus "QUEUED") None], tt).
Proof. reflexivity. Qed.

(** ** Events of a fetch *)

Lemma scan_calls_app (evs1 evs2 : list Event) :
  scan_calls (evs1 ++ evs2) = scan_calls evs1 ++ scan_calls evs2.
Proof.
  induction evs1 as [|[] evs1 IH]; cbn [scan_calls app]; try done.
  case_decide; by rewrite IH.
Qed.

Lemma matched_names_app (evs1 evs2 : list Event) :
  matched_names (evs1 ++ evs2) = matched_names evs1 ++ matched_names evs2.
Proof.
  induction evs1 as [|[] evs1 IH]; cbn [matched_names app]; try done.
  case_decide; by rewrite IH, ?app_assoc.
Qed.

Lemma scan_cursors_app (evs1 evs2 : list Event) :
  scan_cursors (evs1 ++ evs2) = scan_cursors evs1 ++ scan_cursors evs2.
Proof.
  induction evs1 as [|[] evs1 IH]; cbn [scan_cursors app]; try done.
  case_decide; by rewrite IH.
Qed.

Lemma get_keys_app (evs1 evs2 : list Event) :
  get_keys (evs1 ++ evs2) = get_keys evs1 ++ get_keys evs2.
Proof.
  induction evs1 as [|[] evs1 IH]; cbn [get_keys app]; try done.
  case_decide; by rewrite IH.
Qed.

Lemma fetched_app (evs1 evs2 : list Event) (vars : gmap string string) :
  fetched (evs1 ++ evs2) vars = fetched evs2 (fetched evs1 vars).
Proof. apply foldl_app. Qed.

Lemma fetch_event_get (c : conn) (k : string) (r : reply) (err : go_error)
    (vars : gmap string string) :
  fetch_event vars (EvDo c "GET" [AStr k] r err)
  = match Redigo.String r err with
    | (v, None) => <[k := v]> vars
    | (_, Some _) => vars
    end.
Proof. reflexivity. Qed.

Lemma fetch_event_scan (c : conn) (args : list arg) (r : reply) (err : go_error)
    (vars : gmap string string) :
  fetch_event vars (EvDo c "SCAN" args r err) = vars.
Proof. by destruct args as [|[] []]. Qed.

(** Whatever is in the map of a fetch was there before or was read by a
    point lookup of the fetch. *)
Lemma fetched_lookup_Some (evs : list Event) (vars : gmap string string)
    (k v : string) :
  fetched evs vars !! k = Some v ->
  vars !! k = Some v ∨
  ∃ c r err, EvDo c "GET" [AStr k] r err ∈ evs ∧ Redigo.String r err = (v, None).
Proof.
  revert vars. induction evs as [|ev evs IH]; intros vars; [by left|].
  change (fetched (ev :: evs) vars) with (fetched evs (fetch_event vars ev)).
  intros [H|(c & r & err & Hin & Hs)]%IH.
  - destruct ev as [| |c cmd args r err|]; cbn [fetch_event] in H; try by left.
    destruct args as [|[k'|] [|]]; try by left.
    case_decide as Hcmd; [subst cmd|by left].
    destruct (Redigo.String r err) as [v' [e|]] eqn:Hs; [by left|].
    destruct (decide (k' = k)) as [->|Hne].
    + rewrite lookup_insert_eq in H. injection H as ->.
      right. exists c, r, err. split; [left|done].
    + rewrite lookup_insert_ne in H by done. by left.
  - right. exists c, r, err. split; [by right|done].
Qed.

(** One scan call at the head of a run. *)
Lemma scan_event_cons (c : conn) (args : list arg) (r : reply) (err : go_error)
    (evs : list Event) :
  let ev := EvDo c "SCAN" args r err in
  scan_calls (ev :: evs) = args :: scan_calls evs ∧
  scan_cursors (ev :: evs) = page_cursor r err :: scan_cursors evs ∧
  matched_names (ev :: evs) = page_names r err ++ matched_names evs ∧
  get_keys (ev :: evs) = get_keys evs.
Proof. done. Qed.

Lemma page_of_array (v0 v1 : reply) (more : list reply) :
  page_cursor (RArray (v0 :: v1 :: more)) None = Some (Redigo.Int v0 None).1 ∧
  page_names (RArray (v0 :: v1 :: more)) None = (Redigo.Strings v1 None).1.
Proof. done. Qed.

(** ** The pagination loop *)

Section Pagination.

Context {W : Type} (be : Backend W).

Lemma gets_reach_trans (cl : conn) (w1 w2 w3 : W) :
  gets_reach be cl w1 w2 -> gets_reach be cl w2 w3 -> gets_reach be cl w1 w3.
Proof. induction 1; [done|]. intros H3. eapply gets_more. eauto. Qed.

(** The names of a page are looked up one after the other, whatever the
    lookups answer; the map takes the values that were read. *)
Lemma range_items_run (cl : conn) (items : list string) (vars : gmap string string)
    (w : W) :
  ∃ evs w',
    range_items be (Some cl) items vars w = (Ret (Continue (fetched evs vars)), evs, w') ∧
    scan_calls evs = [] ∧ matched_names evs = [] ∧ scan_cursors evs = [] ∧
    get_keys evs = (λ k, [AStr k]) <$> items ∧
    gets_reach be cl w w'.
Proof.
  revert vars w. induction items as [|item items IH]; intros vars w.
  - exists [], w. split_and!; try done. constructor.
  - cbn [range_items Redigo.String].
    destruct (be_do be cl "GET" [AStr item] w) as [[r e] w1] eqn:Hdo.
    erewrite bind_Ret by by apply conn_Do_run.
    set (vars1 := fetch_event vars (EvDo cl "GET" [AStr item] r e)).
    destruct (IH vars1 w1) as (evs & w' & Hrun & Hsc & Hm & Hcu & Hg & Hreach).
    exists (EvDo cl "GET" [AStr item] r e :: evs), w'.
    assert (range_items be (Some cl) items vars1 w1
            = match Redigo.String r e with
              | (value, None) => range_items be (Some cl) items (<[item:=value]> vars) w1
              | (_, Some _) => range_items be (Some cl) items vars w1
              end) as Heq.
    { unfold vars1. rewrite fetch_event_get. by destruct (Redigo.String r e) as [? [?|]]. }
    split_and!.
    + transitivity (result_of (range_items be (Some cl) items vars1 w1),
                    [EvDo cl "GET" [AStr item] r e]
                    ++ events_of (range_items be (Some cl) items vars1 w1),
                    world_of (range_items be (Some cl) items vars1 w1)).
      * rewrite Heq. by destruct (Redigo.String r e) as [? [?|]].
      * by rewrite Hrun.
    + done.
    + done.
    + done.
    + cbn. by rewrite Hg.
    + eapply gets_more. by rewrite Hdo.
Qed.

(** When the store's scan comes back to cursor 0 within [n] calls, the
    loop ends by its [break] after at most [n] scan calls. *)
Lemma scan_loop_returns (cl : conn) (pattern : string) (n : nat) (idx : Z) (w : W) :
  scan_returns be cl pattern n idx w ->
  ∀ (fuel : nat) (vars : gmap string string),
    (n ≤ fuel)%nat ->
    ∃ evs w',
      scan_loop be fuel (Some cl) pattern idx vars w
      = (Ret (Continue (fetched evs vars)), evs, w') ∧
      paginated pattern idx n evs.
Proof.
  induction 1 as [n idx w w1 v0 v1 more Hdo Hzero
                 |n idx w w1 v0 v1 more Hdo Hnz Hnext IH];
    intros fuel vars Hfuel;
    (destruct fuel as [|fuel]; [lia|]);
    cbn [scan_loop];
    (erewrite bind_Ret by by apply conn_Do_run);
    cbn [Redigo.Values hard_error slice_index lookup list_lookup];
    rewrite bind_ret_l;
    destruct (Redigo.Int v0 None) as [idx' ierr] eqn:Hint; cbn [fst] in *;
    rewrite bind_ret_l;
    destruct (Redigo.Strings v1 None) as [items serr] eqn:Hstr;
    destruct (range_items_run cl items vars w1)
      as (evs & w2 & Hrun & Hsc & Hm & Hcu & Hg & Hreach);
    (erewrite bind_Ret by apply Hrun).
  - subst idx'. rewrite decide_True by done.
    exists (EvDo cl "SCAN" (scan_args idx pattern) (RArray (v0 :: v1 :: more)) None :: evs), w2.
    split.
    + unfold ret, result_of, events_of, world_of. cbn.
      by rewrite ?app_nil_r.
    + unfold paginated, count_scans.
      destruct (scan_event_cons cl (scan_args idx pattern)
                  (RArray (v0 :: v1 :: more)) None evs) as (-> & -> & -> & ->).
      destruct (page_of_array v0 v1 more) as [-> ->].
      rewrite Hsc, Hcu, Hg, Hm, Hint, Hstr, app_nil_r. cbn.
      split_and!; try done; try lia.
      repeat constructor. by eexists.
  - cbn beta iota. rewrite decide_False by done.
    destruct (IH w2 Hreach fuel (fetched evs vars)) as (evs' & w3 & Hloop & Hp); [lia|].
    exists (EvDo cl "SCAN" (scan_args idx pattern) (RArray (v0 :: v1 :: more)) None
            :: evs ++ evs'), w3.
    split.
    + rewrite Hloop. unfold result_of, events_of, world_of. cbn [fst snd app].
      change (fetched (?e :: evs ++ evs') vars) with (fetched (evs ++ evs') vars).
      by rewrite fetched_app.
    + destruct Hp as ([Hc1 Hc2] & Hhd & Hall & Hlast & Hkeys).
      unfold paginated, count_scans in *.
      destruct (scan_event_cons cl (scan_args idx pattern)
                  (RArray (v0 :: v1 :: more)) None (evs ++ evs')) as (-> & -> & -> & ->).
      destruct (page_of_array v0 v1 more) as [-> ->].
      rewrite scan_calls_app, scan_cursors_app, get_keys_app, matched_names_app.
      rewrite Hsc, Hcu, Hg, Hm, Hkeys, Hint, Hstr. cbn.
      split_and!; try done; try lia.
      * constructor; [by eexists|done].
      * destruct (scan_cursors evs'); [done|]. by rewrite last_cons_cons.
      * by rewrite fmap_app.
Qed.

(** C8: if the store's scan, started at cursor 0, is back at cursor 0
    after at most [ceil(matchCount / pageSize) + 1] calls, then for every
    pattern the pagination loop of [GetValues] ends, and it has made at
    most [ceil(matchCount / 1000) + 1] scan calls. *)
Theorem C8_pagination_terminates (matchCount : Z) (cl : conn) (pattern : string)
    (fuel : nat) (vars : gmap string string) (w : W) :
  scan_returns be cl pattern (scan_bound matchCount) 0 w ->
  (scan_bound matchCount ≤ fuel)%nat ->
  ∃ c evs w',
    scan_loop be fuel (Some cl) pattern 0 vars w = (Ret c, evs, w') ∧
    (count_scans evs ≤ Z.to_nat (ceil_div matchCount 1000 + 1))%nat.
Proof.
  intros Hret Hfuel.
  destruct (scan_loop_returns cl pattern _ 0 w Hret fuel vars Hfuel)
    as (evs & w' & Hrun & [_ Hc] & _).
  exists (Continue (fetched evs vars)), evs, w'. split; [done|].
  exact Hc.
Qed.

End Pagination.

(** The demo store's scan for ["/config//*"] is back at cursor 0 after
    two calls. *)
Lemma demo_scan_returns : scan_returns Demo.backend 0%nat "/config//*" 2 0 tt.
Proof.
  eapply scan_next; [reflexivity|vm_compute; discriminate|].
  intros [] _. eapply scan_last; reflexivity.
Defined.

Lemma C8_witness :
  scan_returns Demo.backend 0%nat "/config//*" (scan_bound 2) 0 tt ∧
  (scan_bound 2 ≤ 5)%nat ∧
  ∃ c evs w',
    scan_loop Demo.backend 5 (Some 0%nat) "/config//*" 0 ∅ tt = (Ret c, evs, w') ∧
    (count_scans evs ≤ Z.to_nat (ceil_div 2 1000 + 1))%nat.
Proof.
  assert (scan_bound 2 ≤ 5)%nat as Hle by (vm_compute; lia).
  split; [exact demo_scan_returns|]. split; [exact Hle|].
  exact (C8_pagination_terminates Demo.backend 2 0%nat "/config//*" 5 ∅ tt
           demo_scan_returns Hle).
Defined.


(** ** Errors during a fetch *)

Section FetchErrors.

Context {W : Type} (be : Backend W).

(** A direct lookup that fails with anything but not-found ends the
    fetch at once, with the map as it is. *)
Lemma range_keys_lookup_error (fuel : nat) (cl : conn) (key : string)
    (rest : list string) (vars : gmap string string) (w w1 : W)
    (r : reply) (e : go_error) (msg : string) :
  be_do be cl "GET" [AStr (lookup_key key)] w = ((r, e), w1) ->
  (Redigo.String r e).2 = Some (ErrOther msg) ->
  range_keys be fuel (Some cl) (key :: rest) vars w
  = (Ret (vars, Some (ErrOther msg)), [EvDo cl "GET" [AStr (lookup_key key)] r e], w1).
Proof.
  intros Hdo Hs. cbn [range_keys].
  erewrite bind_Ret by by apply conn_Do_run.
  cbn beta iota.
  destruct (Redigo.String r e) as [value err]. cbn in Hs. subst err.
  reflexivity.
Qed.

(** A scan call that fails with anything but not-found ends the fetch at
    once, with the map as it is. *)
Lemma scan_loop_scan_error (fuel : nat) (cl : conn) (pattern : string) (idx : Z)
    (vars : gmap string string) (w w1 : W) (r : reply) (e : go_error) (msg : string) :
  be_do be cl "SCAN" (scan_args idx pattern) w = ((r, e), w1) ->
  (Redigo.Values r e).2 = Some (ErrOther msg) ->
  scan_loop be (S fuel) (Some cl) pattern idx vars w
  = (Ret (Return vars (Some (ErrOther msg))),
     [EvDo cl "SCAN" (scan_args idx pattern) r e], w1).
Proof.
  intros Hdo Hv. cbn [scan_loop].
  erewrite bind_Ret by by apply conn_Do_run.
  cbn beta iota.
  destruct (Redigo.Values r e) as [values err]. cbn in Hv. subst err.
  reflexivity.
Qed.

(** A scan call answered by the nil reply passes the error check, and the
    read of the reply's first element is out of range. *)
Lemma scan_loop_nil_reply (fuel : nat) (cl : conn) (pattern : string) (idx : Z)
    (vars : gmap string string) (w w1 : W) :
  be_do be cl "SCAN" (scan_args idx pattern) w = ((RNil, None), w1) ->
  scan_loop be (S fuel) (Some cl) pattern idx vars w
  = (Panic "runtime error: index out of range",
     [EvDo cl "SCAN" (scan_args idx pattern) RNil None], w1).
Proof.
  intros Hdo. cbn [scan_loop].
  erewrite bind_Ret by by apply conn_Do_run.
  reflexivity.
Qed.

End FetchErrors.

(** C1 on the code: the key ["/app/db"] is listed by the scan and its
    follow-up lookup fails with a time-out, which is not the not-found
    error; the fetch goes on and returns the map without the key and
    without any error. *)
Theorem C1_follow_up_error_dropped :
  GetValues Demo.backend 5 Demo.live ["/app"] tt
  = (Ret (Demo.live, (Some ∅, None)),
     [EvDo 0%nat "PING" [] (RStatus "PONG") None;
      EvDo 0%nat "GET" [AStr "/app"] RNil None;
      EvDo 0%nat "SCAN" (scan_args 0 "/app/*")
        (RArray [RBulk "0"; RArray [RBulk "/app/db"]]) None;
      EvDo 0%nat "GET" [AStr "/app/db"] RNil (Some (ErrOther "read tcp: i/o timeout"))],
     tt).
Proof. vm_compute. reflexivity. Qed.

(** C9 on the code: the scan for ["/nil/*"] is answered by the nil reply,
    which decodes to the not-found error and to no values; the read of the
    cursor panics. *)
Theorem C9_nil_scan_reply_panics :
  GetValues Demo.backend 5 Demo.live ["/nil"] tt
  = (Panic "runtime error: index out of range",
     [EvDo 0%nat "PING" [] (RStatus "PONG") None;
      EvDo 0%nat "GET" [AStr "/nil"] RNil None;
      EvDo 0%nat "SCAN" (scan_args 0 "/nil/*") RNil None],
     tt).
Proof. vm_compute. reflexivity. Qed.

(** ** The wait loop *)

(** One signal: the done channel is closed once and the process exits
    with status 0. *)
Example supervisor_one_signal :
  Supervisor.run Supervisor.init
    [Supervisor.Deliver Supervisor.SIGINT; Supervisor.SelectSignal; Supervisor.SelectDone]
  = Some {| Supervisor.errChan := []; Supervisor.signalChan := [];
            Supervisor.doneClosed := true; Supervisor.closes := 1;
            Supervisor.delivered := 1; Supervisor.proc := Supervisor.Exited 0 |}.
Proof. reflexivity. Qed.

(** C5 on the code: a second signal that arrives after the done channel
    was closed and before the loop has taken the exit case leaves two cases
    ready; when the [select] takes the signal case, the done channel is
    closed a second time and the process panics. *)
Theorem C5_second_signal_panics :
  Supervisor.run Supervisor.init
    [Supervisor.Deliver Supervisor.SIGINT; Supervisor.SelectSignal;
     Supervisor.Deliver Supervisor.SIGTERM; Supervisor.SelectSignal]
  = Some {| Supervisor.errChan := []; Supervisor.signalChan := [];
            Supervisor.doneClosed := true; Supervisor.closes := 1;
            Supervisor.delivered := 2;
            Supervisor.proc := Supervisor.Panicked "close of closed channel" |}.
Proof. reflexivity. Qed.

Lemma supervisor_inv_init : Supervisor.inv Supervisor.init.
Proof. unfold Supervisor.inv. cbn. split_and!; [lia|done|done]. Qed.

Lemma supervisor_inv_step (st st' : Supervisor.state) (a : Supervisor.action) :
  Supervisor.inv st -> Supervisor.step st a = Some st' -> Supervisor.inv st'.
Proof.
  unfold Supervisor.inv, Supervisor.step, Supervisor.panicked.
  destruct st as [errs sigs closed closes delivered proc].
  cbn [Supervisor.proc Supervisor.errChan Supervisor.signalChan
       Supervisor.doneClosed Supervisor.closes Supervisor.delivered].
  intros (Hcount & Hclosed & Hopen).
  destruct proc; [|done|done].
  destruct a as [s|e| | |].
  - intros [= <-]. cbn. case_decide; rewrite ?length_app; cbn; split_and!; try done; lia.
  - case_decide; [|done]. intros [= <-]. cbn. split_and!; try done.
  - destruct errs; [done|]. intros [= <-]. cbn. split_and!; try done.
  - destruct sigs as [|s sigs]; [done|]. cbn [length] in Hcount.
    destruct closed; intros [= <-]; cbn.
    + specialize (Hclosed eq_refl). split_and!; try done; lia.
    + destruct (Hopen eq_refl) as [Hc _]. split_and!; try done; lia.
  - destruct closed; [|done]. intros [= <-]. cbn. split_and!; try done.
Qed.

Lemma supervisor_inv_run (sched : list Supervisor.action) (st st' : Supervisor.state) :
  Supervisor.inv st -> Supervisor.run st sched = Some st' -> Supervisor.inv st'.
Proof.
  revert st. induction sched as [|a sched IH]; intros st Hinv; cbn [Supervisor.run].
  - by intros [= <-].
  - destruct (Supervisor.step st a) as [st1|] eqn:Hstep; [|done].
    apply IH. by eapply supervisor_inv_step.
Qed.

(** When nobody but the loop touches the done channel, which is all
    that [Supervisor.step] lets happen: as long as a single signal was
    delivered, the loop does not panic, and the done channel is never
    closed more than once without a panic. *)
Lemma supervisor_single_signal (st : Supervisor.state) :
  Supervisor.reachable st ->
  (Supervisor.closes st ≤ 1)%nat ∧
  ((Supervisor.delivered st ≤ 1)%nat -> Supervisor.panicked st = false).
Proof.
  intros [sched Hrun].
  destruct (supervisor_inv_run sched _ _ supervisor_inv_init Hrun)
    as (Hcount & Hclosed & Hopen).
  destruct (Supervisor.doneClosed st).
  - rewrite Hclosed in * by done. split; [done|].
    intros Hone. destruct (Supervisor.panicked st); [lia|done].
  - destruct (Hopen eq_refl) as [-> ->]. split; [lia|done].
Qed.

(** ** Fetching what a scan lists *)


Section FetchListed.

Context {W : Type} (be : Backend W).




End FetchListed.



(** The store of C1, whose listed key cannot be fetched, does not serve
    its scan. *)
Example demo_app_not_served : ¬ scan_serves Demo.backend 0%nat "/app/*" 1 0 tt.
Proof.
  inversion 1 as [? ? ? ? ? ? ? Hdo _ Hlook|? ? ? ? ? ? ? Hdo Hnz]; subst.
  - vm_compute in Hdo. injection Hdo as <- <- <- <-.
    vm_compute in Hlook. by destruct Hlook.
  - vm_compute in Hdo. injection Hdo as <- <- <- <-. by vm_compute in Hnz.
Qed.

(** * Further properties of the client *)

(** ** The connect loop on any endpoint list *)

Section ConnectAny.

Context {W : Type} (be : Backend W).

(** An address that is not well formed ends the loop, and the process,
    right after the file system was asked. *)
Lemma tryConnect_from_cons_invalid (a : string) (ms : list string) (pw : string)
    (err : go_error) (w : W) :
  valid_address a = false ->
  ∃ msg, tryConnect_from be (a :: ms) pw err w
         = (Exit 1, [EvStat a (be_stat be a w).1; EvFatal msg], (be_stat be a w).2).
Proof.
  intros Ha. cbn [tryConnect_from].
  erewrite bind_Ret by apply (os_Stat_run be).
  destruct (database_of_invalid a (be_stat be a w).2 Ha) as [msg Hdb].
  erewrite bind_Exit by apply Hdb.
  exists msg. reflexivity.
Qed.

(** What holds of the events of the connect loop whatever the addresses
    and the answers are. *)
Lemma tryConnect_from_events (ms : list string) (pw : string) (err : go_error) (w : W) :
  let evs := events_of (tryConnect_from be ms pw err w) in
  attempted evs `prefix_of` ms ∧
  (length (dial_results evs) ≤ length (attempted evs))%nat ∧
  Forall (λ p, p = pw) (dial_passwords evs) ∧
  commands evs = [].
Proof.
  cbn zeta. revert err w. induction ms as [|a ms IH]; intros err w.
  - by split_and!.
  - destruct (valid_address a) eqn:Ha.
    + destruct (tryConnect_from_cons be a ms pw err w Ha) as (network & host & db & Heq).
      cbn zeta in Heq. rewrite Heq. clear Heq.
      destruct (be_dial be network host db pw (be_stat be a w).2) as [[cn|e] w2];
        cbn [fst snd].
      * unfold events_of. cbn. split_and!; try done.
        -- apply prefix_cons, prefix_nil.
        -- by repeat constructor.
      * destruct (IH (Some e) w2) as (Hpre & Hlen & Hpw & Hcmd).
        unfold events_of in *. cbn. split_and!; try done.
        -- by apply prefix_cons.
        -- lia.
        -- by constructor.
    + destruct (tryConnect_from_cons_invalid a ms pw err w Ha) as [msg ->].
      unfold events_of. cbn. split_and!; try done.
      * apply prefix_cons, prefix_nil.
      * lia.
Qed.

(** X1: whatever the addresses are and whatever the file system and the
    network answer, [tryConnect] looks at the endpoints in the listed
    order, each at most once, and dials each endpoint it looked at at most
    once. *)
Theorem tryConnect_in_listed_order (ms : list string) (pw : string) (w : W) :
  attempted (events_of (tryConnect be ms pw w)) `prefix_of` ms ∧
  (length (dial_results (events_of (tryConnect be ms pw w))) ≤ length ms)%nat.
Proof.
  destruct (tryConnect_from_events ms pw None w) as (Hpre & Hlen & _).
  split; [exact Hpre|].
  apply prefix_length in Hpre. unfold tryConnect. lia.
Qed.

(** X2: every dial of [tryConnect] is made with the password the caller
    gave, and the loop sends no command over any session. *)
Theorem tryConnect_uniform_credential (ms : list string) (pw : string) (w : W) :
  Forall (λ p, p = pw) (dial_passwords (events_of (tryConnect be ms pw w))) ∧
  commands (events_of (tryConnect be ms pw w)) = [].
Proof.
  destruct (tryConnect_from_events ms pw None w) as (_ & _ & Hpw & Hcmd).
  done.
Qed.

(** When the connect loop returns, it returns a session or an error,
    never both. *)
Lemma tryConnect_from_result (ms : list string) (pw : string) (err : go_error) (w : W)
    (cn : option conn) (e : go_error) :
  result_of (tryConnect_from be ms pw err w) = Ret (cn, e) ->
  (∃ c, cn = Some c ∧ e = None) ∨ (cn = None ∧ (ms = [] -> e = err)).
Proof.
  revert err w. induction ms as [|a ms IH]; intros err w.
  - intros [= <- <-]. by right.
  - destruct (valid_address a) eqn:Ha.
    + destruct (tryConnect_from_cons be a ms pw err w Ha) as (network & host & db & Heq).
      cbn zeta in Heq. rewrite Heq. clear Heq.
      destruct (be_dial be network host db pw (be_stat be a w).2) as [[c|e'] w2];
        cbn [fst snd].
      * intros [= <- <-]. left. eauto.
      * unfold result_of at 1. cbn [fst]. intros [H|[-> _]]%IH; [by left|by right].
    + destruct (tryConnect_from_cons_invalid a ms pw err w Ha) as [msg ->]. done.
Qed.

End ConnectAny.

(** ** How an address is read *)

Lemma append_one_assoc (cur : string) (c : ascii) (s : string) :
  (cur +:+ String c EmptyString) +:+ s = cur +:+ String c s.
Proof.
  induction cur as [|d cur IH]; [done|].
  change (String d ((cur +:+ String c EmptyString) +:+ s) = String d (cur +:+ String c s)).
  by rewrite IH.
Qed.

Lemma append_empty_r (s : string) : s +:+ "" = s.
Proof.
  induction s as [|c s IH]; [done|].
  change (String c (s +:+ "") = String c s). by rewrite IH.
Qed.

Lemma split_from_no_slash (cur s : string) :
  no_slash s = true -> GoStrings.split_from "/" 0 cur s = [cur +:+ s].
Proof.
  revert cur. induction s as [|c s IH]; intros cur.
  - intros _. cbn. by rewrite append_empty_r.
  - cbn [no_slash]. intros [Hc Hs]%andb_prop. apply negb_true_iff in Hc.
    cbn [GoStrings.split_from GoStrings.HasPrefix]. rewrite Hc. cbn [andb].
    rewrite IH by done. by rewrite append_one_assoc.
Qed.

Lemma split_from_one_slash (cur host d : string) :
  no_slash host = true -> no_slash d = true ->
  GoStrings.split_from "/" 0 cur (host +:+ "/" +:+ d) = [cur +:+ host; d].
Proof.
  intros Hh Hd. revert cur Hh. induction host as [|c host IH]; intros cur Hh.
  - change ("" +:+ "/" +:+ d) with (String "/" d).
    cbn [GoStrings.split_from GoStrings.HasPrefix].
    rewrite bool_decide_eq_true_2 by done. cbn [andb String.length Nat.pred].
    rewrite split_from_no_slash by done. by rewrite append_empty_r.
  - cbn [no_slash] in Hh. apply andb_prop in Hh as [Hc Hs]. apply negb_true_iff in Hc.
    change (String c host +:+ "/" +:+ d) with (String c (host +:+ "/" +:+ d)).
    cbn [GoStrings.split_from GoStrings.HasPrefix]. rewrite Hc. cbn [andb].
    rewrite IH by done. by rewrite append_one_assoc.
Qed.

Section Addresses.

Context {W : Type} (be : Backend W).

(** X3: an address without a slash is dialled as it stands, with database
    0, over the unix transport when [os.Stat] finds it and over tcp
    otherwise; a failed dial of the only endpoint is the error returned. *)
Theorem tryConnect_plain_address (address pw : string) (w : W) :
  no_slash address = true ->
  let serr := (be_stat be address w).1 in
  let res := be_dial be (network_of serr) address 0 pw (be_stat be address w).2 in
  tryConnect be [address] pw w
  = (Ret match res.1 with
         | inl cn => (Some cn, None)
         | inr e => (None, Some e)
         end,
     [EvStat address serr; EvDial (network_of serr) address 0 pw res.1], res.2).
Proof.
  intros Hns. cbn zeta. unfold tryConnect. cbn [tryConnect_from].
  erewrite bind_Ret by apply (os_Stat_run be).
  unfold GoStrings.Split. rewrite split_from_no_slash by done.
  change ("" +:+ address) with address.
  unfold database_of. cbn [length]. rewrite decide_False by done.
  rewrite bind_ret_l. cbn [slice_index lookup list_lookup]. rewrite bind_ret_l.
  erewrite bind_Ret by apply (redis_Dial_run be).
  fold (network_of (be_stat be address w).1).
  by destruct (be_dial be _ address 0 pw (be_stat be address w).2) as [[cn|e] w2].
Qed.

(** X4: an address [host/d] whose parts hold no further slash and whose
    [d] reads as the integer [db] is dialled at [host] with database [db];
    the transport is chosen by [os.Stat] of the whole address, suffix
    included. *)
Theorem tryConnect_database_suffix (host d pw : string) (db : Z) (w : W) :
  no_slash host = true -> no_slash d = true ->
  GoStrconv.Atoi d = (db, None) ->
  let address := host +:+ "/" +:+ d in
  let serr := (be_stat be address w).1 in
  let res := be_dial be (network_of serr) host db pw (be_stat be address w).2 in
  tryConnect be [address] pw w
  = (Ret match res.1 with
         | inl cn => (Some cn, None)
         | inr e => (None, Some e)
         end,
     [EvStat address serr; EvDial (network_of serr) host db pw res.1], res.2).
Proof.
  intros Hh Hd Hdb. cbn zeta. unfold tryConnect. cbn [tryConnect_from].
  erewrite bind_Ret by apply (os_Stat_run be).
  unfold GoStrings.Split. rewrite split_from_one_slash by done.
  change ("" +:+ host) with host.
  pose proof (database_of_two (W:=W) (host +:+ "/" +:+ d) host d
                (be_stat be (host +:+ "/" +:+ d) w).2) as Hdb2.
  rewrite Hdb in Hdb2.
  erewrite bind_Ret by apply Hdb2.
  cbn [slice_index lookup list_lookup]. rewrite bind_ret_l.
  erewrite bind_Ret by apply (redis_Dial_run be).
  fold (network_of (be_stat be (host +:+ "/" +:+ d) w).1).
  by destruct (be_dial be _ host db pw (be_stat be (host +:+ "/" +:+ d) w).2)
    as [[cn|e] w2].
Qed.

End Addresses.

Lemma tryConnect_plain_address_witness :
  no_slash "127.0.0.1:6399" = true ∧
  tryConnect Demo.backend ["127.0.0.1:6399"] "secret" tt
  = (Ret (Some 0%nat, None),
     [EvStat "127.0.0.1:6399" (Some (ErrOther "stat: no such file or directory"));
      EvDial "tcp" "127.0.0.1:6399" 0 "secret" (inl 0%nat)], tt).
Proof.
  split; [reflexivity|].
  exact (tryConnect_plain_address Demo.backend "127.0.0.1:6399" "secret" tt eq_refl).
Defined.

Lemma tryConnect_database_suffix_witness :
  no_slash "127.0.0.1:6399" = true ∧ no_slash "12" = true ∧
  GoStrconv.Atoi "12" = (12, None) ∧
  tryConnect Demo.backend ["127.0.0.1:6399/12"] "" tt
  = (Ret (Some 0%nat, None),
     [EvStat "127.0.0.1:6399/12" (Some (ErrOther "stat: no such file or directory"));
      EvDial "tcp" "127.0.0.1:6399" 12 "" (inl 0%nat)], tt).
Proof.
  split; [reflexivity|]. split; [reflexivity|]. split; [reflexivity|].
  exact (tryConnect_database_suffix Demo.backend "127.0.0.1:6399" "12" "" 12 tt
           eq_refl eq_refl eq_refl).
Defined.

(** ** The session a wrapper hands out *)

Section Session.

Context {W : Type} (be : Backend W).

(** Without a session the connect loop decides: its session is stored
    and returned, or its error is returned and nothing is stored. *)
Lemma connectedClient_no_session_post (c c' : Client) (rc : option conn)
    (err : go_error) (evs : list Event) (w w' : W) :
  client c = None ->
  connectedClient be c w = (Ret (c', (rc, err)), evs, w') ->
  machines c' = machines c ∧ password c' = password c ∧
  (err = None -> client c' = rc) ∧
  (err ≠ None -> rc = None ∧ client c' = None) ∧
  commands evs = [] ∧
  (length (dial_results evs) ≤ length (machines c))%nat.
Proof.
  intros Hc. unfold connectedClient. rewrite Hc, bind_ret_l, Hc.
  destruct (tryConnect_from_events be (machines c) (password c) None w)
    as (Hpre & Hlen & _ & Hcmd).
  apply prefix_length in Hpre. fold (tryConnect be (machines c) (password c)) in *.
  assert (length (dial_results (events_of (tryConnect be (machines c) (password c) w)))
          ≤ length (machines c))%nat as Hlen' by lia.
  clear Hpre Hlen. rename Hlen' into Hlen.
  pose proof (tryConnect_from_result be (machines c) (password c) None w) as Hres.
  unfold bind. fold (tryConnect be (machines c) (password c)) in Hres.
  destruct (tryConnect be (machines c) (password c) w)
    as [[[[cn e]| | |] evs0] w0]; try done.
  unfold result_of, events_of in *. cbn [fst snd] in *.
  specialize (Hres cn e eq_refl).
  destruct e as [e|]; cbn; intros [= <- <- <- <- <-]; rewrite app_nil_r;
    (split_and!; try done).
  destruct Hres as [(c0 & _ & [=])|[-> _]]. done.
Qed.

(** A probe that shows the session unusable, with an error to log, leaves
    the call where a wrapper without a session starts. *)
Lemma connectedClient_probe_failed (c : Client) (cl : conn) (resp : reply) (e : error)
    (w w1 : W) :
  client c = Some cl ->
  be_do be cl "PING" [] w = ((resp, Some e), w1) ->
  unusable resp (Some e) = true ->
  let next := connectedClient be (set_client c None) w1 in
  connectedClient be c w
  = (result_of next, EvDo cl "PING" [] resp (Some e) :: events_of next, world_of next).
Proof.
  intros Hc Hping Hun. cbn zeta. unfold connectedClient at 1. rewrite Hc, bind_assoc.
  erewrite (bind_Ret (conn_Do be (Some cl) "PING" [])) by by apply conn_Do_run.
  cbn beta iota. rewrite Hun.
  assert (∃ msg, error_Error (W:=W) (Some e) = ret msg) as [msg Hmsg]
    by (destruct e; eauto).
  rewrite Hmsg, bind_assoc, !bind_ret_l.
  unfold connectedClient. cbn [client set_client]. rewrite bind_ret_l.
  cbn [client set_client]. reflexivity.
Qed.

(** Before it returns, [connectedClient] has sent at most the probe. *)
Lemma connectedClient_commands (c c' : Client) (rc : option conn) (err : go_error)
    (evs : list Event) (w w' : W) :
  connectedClient be c w = (Ret (c', (rc, err)), evs, w') ->
  commands evs = [] ∨ commands evs = ["PING"].
Proof.
  destruct (client c) as [cl|] eqn:Hc.
  - destruct (be_do be cl "PING" [] w) as [[resp e] w1] eqn:Hping.
    destruct (unusable resp e) eqn:Hun.
    + destruct e as [e|].
      * rewrite (connectedClient_probe_failed c cl resp e w w1 Hc Hping Hun).
        destruct (connectedClient be (set_client c None) w1) as [[r evs1] w2] eqn:Hnext.
        unfold result_of, events_of, world_of. cbn [fst snd].
        intros [= -> <- <-].
        destruct (connectedClient_no_session_post (set_client c None)
                    _ _ _ _ _ _ eq_refl Hnext) as (_ & _ & _ & _ & Hcmd & _).
        cbn [commands]. rewrite Hcmd. by right.
      * unfold connectedClient. rewrite Hc, bind_assoc.
        erewrite (bind_Ret (conn_Do be (Some cl) "PING" [])) by by apply conn_Do_run.
        cbn beta iota. rewrite Hun, bind_assoc. done.
    + unfold connectedClient. rewrite Hc, bind_assoc.
      erewrite (bind_Ret (conn_Do be (Some cl) "PING" [])) by by apply conn_Do_run.
      cbn beta iota. rewrite Hun, bind_ret_l, Hc.
      unfold result_of, events_of, world_of, ret. cbn [fst snd app].
      intros [= <- <- <- <- <-]. by right.
  - intros Hrun.
    destruct (connectedClient_no_session_post _ _ _ _ _ _ _ Hc Hrun)
      as (_ & _ & _ & _ & Hcmd & _).
    by left.
Qed.

(** X5: whenever [connectedClient] returns, the wrapper keeps its endpoint
    list and password; without an error the session returned is the one
    the wrapper now holds; with an error no session is returned and the
    wrapper holds none. On the way at most one command, the probe, was
    sent, and at most one dial per endpoint was made. *)
Theorem connectedClient_post (c c' : Client) (rc : option conn) (err : go_error)
    (evs : list Event) (w w' : W) :
  connectedClient be c w = (Ret (c', (rc, err)), evs, w') ->
  machines c' = machines c ∧ password c' = password c ∧
  (err = None -> client c' = rc) ∧
  (err ≠ None -> rc = None ∧ client c' = None) ∧
  (commands evs = [] ∨ commands evs = ["PING"]) ∧
  (length (dial_results evs) ≤ length (machines c))%nat.
Proof.
  destruct (client c) as [cl|] eqn:Hc.
  - destruct (be_do be cl "PING" [] w) as [[resp e] w1] eqn:Hping.
    destruct (unusable resp e) eqn:Hun.
    + destruct e as [e|].
      * rewrite (connectedClient_probe_failed c cl resp e w w1 Hc Hping Hun).
        destruct (connectedClient be (set_client c None) w1) as [[r evs1] w2] eqn:Hnext.
        unfold result_of, events_of, world_of. cbn [fst snd].
        intros [= -> <- <-].
        destruct (connectedClient_no_session_post (set_client c None)
                    _ _ _ _ _ _ eq_refl Hnext)
          as (Hm & Hp & Hok & Herr & Hcmd & Hlen).
        cbn [commands dial_results]. rewrite Hcmd.
        split_and!; try done. by right.
      * unfold connectedClient. rewrite Hc, bind_assoc.
        erewrite (bind_Ret (conn_Do be (Some cl) "PING" [])) by by apply conn_Do_run.
        cbn beta iota. rewrite Hun, bind_assoc. done.
    + unfold connectedClient. rewrite Hc, bind_assoc.
      erewrite (bind_Ret (conn_Do be (Some cl) "PING" [])) by by apply conn_Do_run.
      cbn beta iota. rewrite Hun, bind_ret_l, Hc.
      unfold result_of, events_of, world_of, ret. cbn [fst snd app].
      intros [= <- <- <- <- <-]. cbn. split_and!; try done; [by right|lia].
  - intros Hrun.
    destruct (connectedClient_no_session_post _ _ _ _ _ _ _ Hc Hrun)
      as (Hm & Hp & Hok & Herr & Hcmd & Hlen).
    split_and!; try done. by left.
Qed.

End Session.

Lemma connectedClient_post_witness :
  connectedClient Demo.backend Demo.live tt
  = (Ret (Demo.live, (Some 0%nat, None)),
     [EvDo 0%nat "PING" [] (RStatus "PONG") None], tt) ∧
  machines Demo.live = machines Demo.live ∧ password Demo.live = password Demo.live ∧
  (@None error = None -> client Demo.live = Some 0%nat) ∧
  (@None error ≠ None -> Some 0%nat = None ∧ client Demo.live = None) ∧
  (commands [EvDo 0%nat "PING" [] (RStatus "PONG") None] = [] ∨
   commands [EvDo 0%nat "PING" [] (RStatus "PONG") None] = ["PING"]) ∧
  (length (dial_results [EvDo 0%nat "PING" [] (RStatus "PONG") None])
   ≤ length (machines Demo.live))%nat.
Proof.
  split; [reflexivity|].
  exact (connectedClient_post Demo.backend Demo.live Demo.live (Some 0%nat) None
           [EvDo 0%nat "PING" [] (RStatus "PONG") None] tt tt eq_refl).
Defined.

(** ** [Set] and [Remove] *)

Section Operations.

Context {W : Type} (be : Backend W).

(** X6: on a session that answers the probe, [Set] sends the probe and one
    [SET] with the key and the value as they were given, nothing else, and
    returns what that command returned as its error; the wrapper is left
    as it was. *)
Theorem Set_on_live_session (c : Client) (cl : conn) (key value : string)
    (r : reply) (e : go_error) (w w1 w2 : W) :
  client c = Some cl ->
  be_do be cl "PING" [] w = ((RStatus "PONG", None), w1) ->
  be_do be cl "SET" [AStr key; AStr value] w1 = ((r, e), w2) ->
  Set_ be c key value w
  = (Ret (c, e),
     [EvDo cl "PING" [] (RStatus "PONG") None;
      EvDo cl "SET" [AStr key; AStr value] r e], w2).
Proof.
  intros Hc Hping Hset. unfold Set_.
  erewrite bind_Ret by by apply connectedClient_pong.
  cbn [hard_error].
  erewrite bind_Ret by by apply conn_Do_run.
  reflexivity.
Qed.

(** X7: on a session that answers the probe, [Remove] sends one [DEL];
    when the reply reads as the integer [n], the call succeeds exactly
    when [n] is positive, and otherwise returns the error that the key
    does not exist. *)
Theorem Remove_on_live_session (c : Client) (cl : conn) (key : string)
    (r : reply) (e : go_error) (n : Z) (w w1 w2 : W) :
  client c = Some cl ->
  be_do be cl "PING" [] w = ((RStatus "PONG", None), w1) ->
  be_do be cl "DEL" [AStr key] w1 = ((r, e), w2) ->
  Redigo.Int r e = (n, None) ->
  Remove be c key w
  = (Ret (c, if decide (0 < n) then None
             else Some (ErrOther ("key:" +:+ key +:+ " not exist"))),
     [EvDo cl "PING" [] (RStatus "PONG") None; EvDo cl "DEL" [AStr key] r e], w2).
Proof.
  intros Hc Hping Hdel Hint. unfold Remove.
  erewrite bind_Ret by by apply connectedClient_pong.
  cbn [hard_error].
  erewrite bind_Ret by by apply conn_Do_run.
  cbn beta iota. rewrite Hint.
  case_decide as Hn.
  - apply Z.ltb_lt in Hn. by rewrite Hn.
  - apply Z.ltb_nlt in Hn. by rewrite Hn.
Qed.

(** X8: on a session that answers the probe, a [DEL] that fails, or whose
    reply does not read as an integer, makes [Remove] return that
    error. *)
Theorem Remove_error (c : Client) (cl : conn) (key : string)
    (r : reply) (e : go_error) (n : Z) (err : error) (w w1 w2 : W) :
  client c = Some cl ->
  be_do be cl "PING" [] w = ((RStatus "PONG", None), w1) ->
  be_do be cl "DEL" [AStr key] w1 = ((r, e), w2) ->
  Redigo.Int r e = (n, Some err) ->
  Remove be c key w
  = (Ret (c, Some err),
     [EvDo cl "PING" [] (RStatus "PONG") None; EvDo cl "DEL" [AStr key] r e], w2).
Proof.
  intros Hc Hping Hdel Hint. unfold Remove.
  erewrite bind_Ret by by apply connectedClient_pong.
  cbn [hard_error].
  erewrite bind_Ret by by apply conn_Do_run.
  cbn beta iota. by rewrite Hint.
Qed.

(** X9: when no session can be had, that is when [connectedClient] comes
    back with an error other than not-found, [Set], [Remove] and
    [GetValues] return that error and send no command of their own;
    [GetValues] returns the nil map with it. *)
Theorem operations_without_session (c c' : Client) (rc : option conn) (msg : string)
    (evs : list Event) (w w' : W) :
  connectedClient be c w = (Ret (c', (rc, Some (ErrOther msg))), evs, w') ->
  (∀ key value, Set_ be c key value w = (Ret (c', Some (ErrOther msg)), evs, w')) ∧
  (∀ key, Remove be c key w = (Ret (c', Some (ErrOther msg)), evs, w')) ∧
  (∀ fuel keys,
     GetValues be fuel c keys w = (Ret (c', (None, Some (ErrOther msg))), evs, w')) ∧
  (commands evs = [] ∨ commands evs = ["PING"]).
Proof.
  intros Hrun. split_and!.
  - intros key value. unfold Set_. erewrite bind_Ret by apply Hrun.
    cbn. by rewrite app_nil_r.
  - intros key. unfold Remove. erewrite bind_Ret by apply Hrun.
    cbn. by rewrite app_nil_r.
  - intros fuel keys. unfold GetValues. erewrite bind_Ret by apply Hrun.
    cbn. by rewrite app_nil_r.
  - exact (connectedClient_commands be _ _ _ _ _ _ _ Hrun).
Qed.

(** X10: a wrapper without a session and with an empty endpoint list gets
    neither a session nor an error from the connect loop, and [Set],
    [Remove] and [GetValues] on at least one key then panic on the nil
    session; nothing is asked of the outside. *)
Theorem operations_on_empty_endpoint_list (c : Client) (w : W) :
  client c = None -> machines c = [] ->
  let nil_deref := "runtime error: invalid memory address or nil pointer dereference" in
  (∀ key value, Set_ be c key value w = (Panic nil_deref, [], w)) ∧
  (∀ key, Remove be c key w = (Panic nil_deref, [], w)) ∧
  (∀ fuel key keys, GetValues be fuel c (key :: keys) w = (Panic nil_deref, [], w)).
Proof.
  intros Hc Hm. cbn zeta.
  assert (connectedClient be c w = (Ret (c, (None, None)), [], w)) as Hrun.
  { unfold connectedClient. rewrite Hc, bind_ret_l, Hc, Hm.
    unfold tryConnect. cbn [tryConnect_from]. rewrite bind_ret_l.
    destruct c as [cl ms pw]. cbn in *. by subst. }
  split_and!.
  - intros key value. unfold Set_. erewrite bind_Ret by apply Hrun. reflexivity.
  - intros key. unfold Remove. erewrite bind_Ret by apply Hrun. reflexivity.
  - intros fuel key keys. unfold GetValues. erewrite bind_Ret by apply Hrun.
    reflexivity.
Qed.

End Operations.

Example store_set_then_get :
  let m1 := world_of (Set_ Store.backend Store.wrapper "/app/db" "1" ∅) in
  result_of (GetValues Store.backend 3 Store.wrapper ["/app"] m1)
  = Ret (Store.wrapper, (Some {["/app/db" := "1"]}, None)).
Proof. vm_compute. reflexivity. Qed.

Lemma Set_on_live_session_witness :
  client Store.wrapper = Some 0%nat ∧
  be_do Store.backend 0%nat "PING" [] ∅ = ((RStatus "PONG", None), ∅) ∧
  be_do Store.backend 0%nat "SET" [AStr "/app/db"; AStr "1"] ∅
  = ((RStatus "OK", None), {["/app/db" := "1"]}) ∧
  Set_ Store.backend Store.wrapper "/app/db" "1" ∅
  = (Ret (Store.wrapper, None),
     [EvDo 0%nat "PING" [] (RStatus "PONG") None;
      EvDo 0%nat "SET" [AStr "/app/db"; AStr "1"] (RStatus "OK") None],
     {["/app/db" := "1"]}).
Proof.
  split; [reflexivity|]. split; [reflexivity|]. split; [reflexivity|].
  exact (Set_on_live_session Store.backend Store.wrapper 0%nat "/app/db" "1" _ _
           ∅ ∅ {["/app/db" := "1"]} eq_refl eq_refl eq_refl).
Defined.

Lemma Remove_on_live_session_witness :
  client Store.wrapper = Some 0%nat ∧
  be_do Store.backend 0%nat "PING" [] {["/app/db" := "1"]}
  = ((RStatus "PONG", None), {["/app/db" := "1"]}) ∧
  be_do Store.backend 0%nat "DEL" [AStr "/app/db"] {["/app/db" := "1"]}
  = ((RInt 1, None), delete "/app/db" {["/app/db" := "1"]}) ∧
  Redigo.Int (RInt 1) None = (1, None) ∧
  Remove Store.backend Store.wrapper "/app/db" {["/app/db" := "1"]}
  = (Ret (Store.wrapper, if decide (0 < 1) then None
                         else Some (ErrOther ("key:" +:+ "/app/db" +:+ " not exist"))),
     [EvDo 0%nat "PING" [] (RStatus "PONG") None;
      EvDo 0%nat "DEL" [AStr "/app/db"] (RInt 1) None],
     delete "/app/db" {["/app/db" := "1"]}).
Proof.
  split; [reflexivity|]. split; [reflexivity|]. split; [reflexivity|].
  split; [reflexivity|].
  exact (Remove_on_live_session Store.backend Store.wrapper 0%nat "/app/db" _ _ 1
           {["/app/db" := "1"]} {["/app/db" := "1"]} _ eq_refl eq_refl eq_refl eq_refl).
Defined.

(** Removing a key the store does not hold: the count is 0 and the call
    reports that the key does not exist. *)
Example Remove_absent_key :
  result_of (Remove Store.backend Store.wrapper "/gone" ∅)
  = Ret (Store.wrapper, Some (ErrOther "key:/gone not exist")).
Proof. reflexivity. Qed.

Lemma Remove_error_witness :
  client Demo.live = Some 0%nat ∧
  be_do Demo.backend 0%nat "PING" [] tt = ((RStatus "PONG", None), tt) ∧
  be_do Demo.backend 0%nat "DEL" [AStr "/app/db"] tt
  = ((RError "ERR unknown command", Some (ErrOther "ERR unknown command")), tt) ∧
  Redigo.Int (RError "ERR unknown command") (Some (ErrOther "ERR unknown command"))
  = (0, Some (ErrOther "ERR unknown command")) ∧
  Remove Demo.backend Demo.live "/app/db" tt
  = (Ret (Demo.live, Some (ErrOther "ERR unknown command")),
     [EvDo 0%nat "PING" [] (RStatus "PONG") None;
      EvDo 0%nat "DEL" [AStr "/app/db"] (RError "ERR unknown command")
        (Some (ErrOther "ERR unknown command"))], tt).
Proof.
  split; [reflexivity|]. split; [reflexivity|]. split; [reflexivity|].
  split; [reflexivity|].
  exact (Remove_error Demo.backend Demo.live 0%nat "/app/db" _ _ 0 _ tt tt tt
           eq_refl eq_refl eq_refl eq_refl).
Defined.

Lemma operations_without_session_witness :
  let c := {| client := None; machines := ["10.0.0.1:6379"]; password := "" |} in
  let evs := [EvStat "10.0.0.1:6379" (Some (ErrOther "stat: no such file or directory"));
              EvDial "tcp" "10.0.0.1:6379" 0 "" (inr (ErrOther "dial: connection refused"))] in
  connectedClient Store.backend c ∅
  = (Ret (c, (None, Some (ErrOther "dial: connection refused"))), evs, ∅) ∧
  (∀ key value, Set_ Store.backend c key value ∅
                = (Ret (c, Some (ErrOther "dial: connection refused")), evs, ∅)) ∧
  (∀ key, Remove Store.backend c key ∅
          = (Ret (c, Some (ErrOther "dial: connection refused")), evs, ∅)) ∧
  (∀ fuel keys, GetValues Store.backend fuel c keys ∅
                = (Ret (c, (None, Some (ErrOther "dial: connection refused"))), evs, ∅)) ∧
  (commands evs = [] ∨ commands evs = ["PING"]).
Proof.
  cbn zeta. split; [reflexivity|].
  exact (operations_without_session Store.backend
           {| client := None; machines := ["10.0.0.1:6379"]; password := "" |}
           {| client := None; machines := ["10.0.0.1:6379"]; password := "" |}
           None "dial: connection refused"
           [EvStat "10.0.0.1:6379" (Some (ErrOther "stat: no such file or directory"));
            EvDial "tcp" "10.0.0.1:6379" 0 ""
              (inr (ErrOther "dial: connection refused"))]
           ∅ ∅ eq_refl).
Defined.

Lemma operations_on_empty_endpoint_list_witness :
  let c := {| client := None; machines := []; password := "" |} in
  let nil_deref := "runtime error: invalid memory address or nil pointer dereference" in
  client c = None ∧ machines c = [] ∧
  (∀ key value, Set_ Store.backend c key value ∅ = (Panic nil_deref, [], ∅)) ∧
  (∀ key, Remove Store.backend c key ∅ = (Panic nil_deref, [], ∅)) ∧
  (∀ fuel key keys, GetValues Store.backend fuel c (key :: keys) ∅
                    = (Panic nil_deref, [], ∅)).
Proof.
  cbn zeta. split; [reflexivity|]. split; [reflexivity|].
  exact (operations_on_empty_endpoint_list Store.backend
           {| client := None; machines := []; password := "" |} ∅ eq_refl eq_refl).
Defined.

(** ** What a fetch returns *)

Lemma probe_only_events (evs : list Event) (vars : gmap string string) :
  commands evs = [] ∨ commands evs = ["PING"] ->
  fetched evs vars = vars ∧ matched_names evs = [] ∧ get_keys evs = [].
Proof.
  induction evs as [|ev evs IH]; [done|].
  destruct ev as [a res|n a d p res|c cmd args r err|msg]; cbn [commands];
    try (intros H; destruct (IH H) as (H1 & H2 & H3); done).
  intros [[=]|[= -> Hrest]].
  destruct (IH (or_introl Hrest)) as (H1 & H2 & H3).
  split_and!; [|done|done].
  change (fetched (EvDo c "PING" args r err :: evs) vars)
    with (fetched evs (fetch_event vars (EvDo c "PING" args r err))).
  rewrite <-H1 at 2. f_equal. by destruct args as [|[] []].
Qed.

Lemma Values_error_empty (r : reply) (e : go_error) :
  (Redigo.Values r e).2 ≠ None -> (Redigo.Values r e).1 = [].
Proof. by destruct e, r. Qed.

Lemma get_event_key (evs : list Event) (c : conn) (args : list arg) (r : reply)
    (err : go_error) :
  EvDo c "GET" args r err ∈ evs -> args ∈ get_keys evs.
Proof.
  induction evs as [|ev evs IH]; [by intros ?%elem_of_nil|].
  intros [<-|Hin]%elem_of_cons.
  - cbn. left.
  - destruct ev as [| |c' cmd args' r' err'|]; cbn [get_keys]; try by apply IH.
    case_decide; [right|]; by apply IH.
Qed.

Section Fetch.

Context {W : Type} (be : Backend W).

(** However the pagination loop returns, the map it hands back is the one
    it was given plus what the follow-up lookups read, the lookups are
    those of the listed names, and an error it returns is no not-found
    error. *)
Lemma scan_loop_post (fuel : nat) (cl : conn) (pattern : string) (idx : Z)
    (vars : gmap string string) (w w' : W) (c : ctl) (evs : list Event) :
  scan_loop be fuel (Some cl) pattern idx vars w = (Ret c, evs, w') ->
  match c with
  | Return v err => v = fetched evs vars ∧ hard_error err = true
  | Continue v => v = fetched evs vars
  end ∧
  get_keys evs = (λ k, [AStr k]) <$> matched_names evs.
Proof.
  revert idx vars w w' c evs.
  induction fuel as [|fuel IH]; intros idx vars w w' c evs; [done|].
  cbn [scan_loop].
  destruct (be_do be cl "SCAN" (scan_args idx pattern) w) as [[r e] w1] eqn:Hdo.
  erewrite bind_Ret by by apply conn_Do_run.
  cbn beta iota.
  pose proof (Values_error_empty r e) as Hempty.
  assert (page_names r e = match (Redigo.Values r e).1 !! 1%nat with
                           | Some v1 => (Redigo.Strings v1 None).1
                           | None => []
                           end) as Hnames by done.
  destruct (Redigo.Values r e) as [values err]. cbn [fst snd] in *.
  destruct (scan_event_cons cl (scan_args idx pattern) r e []) as (_ & _ & Hm1 & Hg1).
  destruct (hard_error err) eqn:Hhard.
  - unfold ret, result_of, events_of, world_of. cbn [fst snd app].
    intros [= <- <- <-]. rewrite Hm1, Hg1, Hnames, Hempty by by destruct err.
    done.
  - destruct values as [|v0 [|v1 more]]; [done| |].
    { cbn [slice_index lookup list_lookup]. rewrite bind_ret_l.
      by destruct (Redigo.Int v0 None). }
    cbn [slice_index lookup list_lookup] in *. rewrite bind_ret_l.
    destruct (Redigo.Int v0 None) as [idx' ierr]. rewrite bind_ret_l.
    destruct (Redigo.Strings v1 None) as [items serr]. cbn [fst] in Hnames.
    destruct (range_items_run be cl items vars w1)
      as (evs1 & w2 & Hrun & Hsc & Hm & Hcu & Hg & Hreach).
    erewrite bind_Ret by apply Hrun. cbn beta iota.
    destruct (scan_event_cons cl (scan_args idx pattern) r e evs1)
      as (_ & _ & Hm2 & Hg2).
    case_decide as Hidx.
    + unfold ret, result_of, events_of, world_of. cbn [fst snd app].
      intros [= <- <- <-]. rewrite app_nil_r, Hm2, Hg2, Hm, Hg, Hnames, app_nil_r.
      done.
    + destruct (scan_loop be fuel (Some cl) pattern idx' (fetched evs1 vars) w2)
        as [[r2 evs2] w3] eqn:Hrec.
      unfold result_of, events_of, world_of. cbn [fst snd app].
      intros [= -> <- <-].
      destruct (IH _ _ _ _ _ _ Hrec) as [Hc Hkeys].
      destruct (scan_event_cons cl (scan_args idx pattern) r e (evs1 ++ evs2))
        as (_ & _ & Hm3 & Hg3).
      rewrite Hm3, Hg3, matched_names_app, get_keys_app, Hm, Hg, Hkeys, Hnames.
      cbn [app]. rewrite fmap_app. split; [|done].
      change (fetched (?ev :: evs1 ++ evs2) vars) with (fetched (evs1 ++ evs2) vars).
      by rewrite fetched_app.
Qed.

(** The same for the loop over the requested keys; each lookup is that
    of a requested key, markers taken out, or of a listed name. *)
Lemma range_keys_post (fuel : nat) (rc : option conn) (keys : list string)
    (vars : gmap string string) (w w' : W) (v : gmap string string) (e : go_error)
    (evs : list Event) :
  range_keys be fuel rc keys vars w = (Ret (v, e), evs, w') ->
  v = fetched evs vars ∧ e ≠ Some ErrNil ∧
  Forall (λ a, ∃ k, a = [AStr k] ∧
                    (k ∈ lookup_key <$> keys ∨ k ∈ matched_names evs))
         (get_keys evs).
Proof.
  revert vars w w' v e evs.
  induction keys as [|key keys IH]; intros vars w w' v e evs.
  - intros [= <- <- <- <-]. done.
  - destruct rc as [cl|]; [|done].
    cbn [range_keys].
    destruct (be_do be cl "GET" [AStr (lookup_key key)] w) as [[r e0] w1] eqn:Hdo.
    erewrite bind_Ret by by apply conn_Do_run.
    cbn beta iota.
    set (g := EvDo cl "GET" [AStr (lookup_key key)] r e0).
    assert (∀ evs', get_keys (g :: evs') = [AStr (lookup_key key)] :: get_keys evs'
                    ∧ matched_names (g :: evs') = matched_names evs'
                    ∧ fetched (g :: evs') vars = fetched evs' (fetch_event vars g))
      as Hcons by done.
    assert (∀ evs' (l : list (list arg)),
              Forall (λ a, ∃ k, a = [AStr k] ∧
                                (k ∈ lookup_key <$> keys ∨ k ∈ matched_names evs')) l ->
              Forall (λ a, ∃ k, a = [AStr k] ∧
                                (k ∈ lookup_key <$> key :: keys ∨
                                 k ∈ matched_names (g :: evs')))
                     ([AStr (lookup_key key)] :: l)) as Hall.
    { intros evs' l Hl. constructor.
      - eexists. split; [done|]. left. cbn. left.
      - eapply Forall_impl; [exact Hl|]. intros a (k & -> & [Hk|Hk]).
        + eexists. split; [done|]. left. cbn. by right.
        + eexists. split; [done|]. right. by rewrite (proj1 (proj2 (Hcons evs'))). }
    pose proof (fetch_event_get cl (lookup_key key) r e0 vars) as Hfe. fold g in Hfe.
    destruct (Redigo.String r e0) as [value [e'|]].
    + destruct (hard_error (Some e')) eqn:Hhard.
      * unfold ret, result_of, events_of, world_of. cbn [fst snd app].
        intros [= <- <- <- <-]. split_and!.
        -- destruct (Hcons []) as (_ & _ & ->). by rewrite Hfe.
        -- by destruct e'.
        -- apply (Hall [] []). constructor.
      * destruct (scan_loop be fuel (Some cl) (scan_pattern (lookup_key key)) 0 vars w1)
          as [[[c| | |] evs2] w2] eqn:Hscan;
          try (erewrite bind_Panic by apply Hscan);
          try (erewrite bind_Exit by apply Hscan);
          try (erewrite bind_OutOfFuel by apply Hscan); try done.
        erewrite bind_Ret by apply Hscan.
        destruct (scan_loop_post _ _ _ _ _ _ _ _ _ Hscan) as [Hc Hkeys].
        destruct c as [v2 err2|v2]; cbn beta iota.
        -- destruct Hc as [-> Herr2].
           unfold ret, result_of, events_of, world_of. cbn [fst snd app].
           intros [= <- <- <- <-]. rewrite app_nil_r.
           destruct (Hcons evs2) as (-> & _ & ->). rewrite Hfe. split_and!.
           ++ done.
           ++ by destruct err2 as [[]|].
           ++ apply Hall. rewrite Hkeys. apply Forall_fmap, Forall_forall.
              intros k Hk. eexists. split; [done|]. by right.
        -- subst v2.
           destruct (range_keys be fuel (Some cl) keys (fetched evs2 vars) w2)
             as [[r3 evs3] w3] eqn:Hrest.
           unfold result_of, events_of, world_of. cbn [fst snd app].
           intros [= -> <- <-].
           destruct (IH _ _ _ _ _ _ Hrest) as (-> & He & Hk3).
           destruct (Hcons (evs2 ++ evs3)) as (-> & _ & ->). rewrite Hfe.
           split_and!; [by rewrite fetched_app|done|].
           apply Hall. rewrite get_keys_app, matched_names_app.
           apply Forall_app. split.
           ++ rewrite Hkeys. apply Forall_fmap, Forall_forall.
              intros k Hk. eexists. split; [done|]. right.
              apply elem_of_app. by left.
           ++ eapply Forall_impl; [exact Hk3|]. intros a (k & -> & [Hk|Hk]).
              ** eexists. split; [done|]. by left.
              ** eexists. split; [done|]. right. apply elem_of_app. by right.
    + destruct (range_keys be fuel (Some cl) keys (<[lookup_key key:=value]> vars) w1)
        as [[r3 evs3] w3] eqn:Hrest.
      unfold result_of, events_of, world_of. cbn [fst snd app].
      intros [= -> <- <-].
      destruct (IH _ _ _ _ _ _ Hrest) as (-> & He & Hk3).
      destruct (Hcons evs3) as (-> & _ & ->). rewrite Hfe.
      split_and!; [done|done|]. by apply Hall.
Qed.

(** X11: whenever [GetValues] returns a map, every entry of the map was
    read by a point lookup of this very call that succeeded, and its key
    is a requested key with the markers taken out or a name listed by one
    of the scan replies; the map is exactly what the successful lookups
    add up to, in the order they were made. *)
Theorem GetValues_only_fetched (fuel : nat) (c c' : Client) (keys : list string)
    (vars : gmap string string) (err : go_error) (evs : list Event) (w w' : W) :
  GetValues be fuel c keys w = (Ret (c', (Some vars, err)), evs, w') ->
  vars = fetched evs ∅ ∧
  ∀ k v, vars !! k = Some v ->
         (k ∈ lookup_key <$> keys ∨ k ∈ matched_names evs) ∧
         ∃ c0 r e, EvDo c0 "GET" [AStr k] r e ∈ evs ∧ Redigo.String r e = (v, None).
Proof.
  unfold GetValues.
  destruct (connectedClient be c w) as [[[[c1 [rc e1]]| | |] evs1] w1] eqn:Hconn;
    try (erewrite bind_Panic by apply Hconn);
    try (erewrite bind_Exit by apply Hconn);
    try (erewrite bind_OutOfFuel by apply Hconn); try done.
  erewrite bind_Ret by apply Hconn.
  cbn beta iota. destruct (hard_error e1); [by cbn|].
  pose proof (connectedClient_commands be _ _ _ _ _ _ _ Hconn) as Hcmd.
  destruct (probe_only_events evs1 ∅ Hcmd) as (Hf1 & Hm1 & Hg1).
  unfold bind.
  destruct (range_keys be fuel rc keys ∅ w1) as [[[[v2 e2]| | |] evs2] w2] eqn:Hkeys;
    try done.
  cbn. intros [= <- <- <- <- <-]. rewrite app_nil_r.
  destruct (range_keys_post _ _ _ _ _ _ _ _ _ Hkeys) as (-> & _ & Hall).
  assert (fetched (evs1 ++ evs2) ∅ = fetched evs2 ∅) as Hfetched
    by by rewrite fetched_app, Hf1.
  split; [done|].
  intros k v Hk. rewrite <-Hfetched in Hk.
  apply fetched_lookup_Some in Hk as [Hk|(c0 & r & e & Hin & Hs)];
    [by rewrite lookup_empty in Hk|].
  split; [|by eauto].
  apply get_event_key in Hin. rewrite get_keys_app, Hg1 in Hin. cbn [app] in Hin.
  rewrite Forall_forall in Hall. destruct (Hall _ Hin) as (k' & [= <-] & Hor).
  by rewrite matched_names_app, Hm1.
Qed.

(** X12: the error [GetValues] returns is never the not-found error: a key
    that is found neither directly nor by the scan is left out of the map
    without being reported. *)
Theorem GetValues_never_not_found (fuel : nat) (c c' : Client) (keys : list string)
    (vars : option (gmap string string)) (err : go_error) (evs : list Event)
    (w w' : W) :
  GetValues be fuel c keys w = (Ret (c', (vars, err)), evs, w') ->
  err ≠ Some ErrNil.
Proof.
  unfold GetValues.
  destruct (connectedClient be c w) as [[[[c1 [rc e1]]| | |] evs1] w1] eqn:Hconn;
    try (erewrite bind_Panic by apply Hconn);
    try (erewrite bind_Exit by apply Hconn);
    try (erewrite bind_OutOfFuel by apply Hconn); try done.
  erewrite bind_Ret by apply Hconn.
  cbn beta iota. destruct (hard_error e1) eqn:Hhard.
  - cbn. intros [= <- <- <- <- <-]. by destruct e1 as [[]|].
  - unfold bind.
    destruct (range_keys be fuel rc keys ∅ w1) as [[[[v2 e2]| | |] evs2] w2] eqn:Hkeys;
      try done.
    cbn. intros [= <- <- <- <- <-].
    by destruct (range_keys_post _ _ _ _ _ _ _ _ _ Hkeys) as (_ & He & _).
Qed.

End Fetch.

Lemma GetValues_only_fetched_witness :
  let m : gmap string string := {["/app/db" := "1"]} in
  let evs := [EvDo 0%nat "PING" [] (RStatus "PONG") None;
              EvDo 0%nat "GET" [AStr "/app"] RNil None;
              EvDo 0%nat "SCAN" (scan_args 0 "/app/*")
                (RArray [RBulk "0"; RArray [RBulk "/app/db"]]) None;
              EvDo 0%nat "GET" [AStr "/app/db"] (RBulk "1") None] in
  GetValues Store.backend 3 Store.wrapper ["/app"] m
  = (Ret (Store.wrapper, (Some m, None)), evs, m) ∧
  m = fetched evs ∅ ∧
  ∀ k v, m !! k = Some v ->
         (k ∈ lookup_key <$> ["/app"] ∨ k ∈ matched_names evs) ∧
         ∃ c0 r e, EvDo c0 "GET" [AStr k] r e ∈ evs ∧ Redigo.String r e = (v, None).
Proof.
  cbn zeta.
  assert (GetValues Store.backend 3 Store.wrapper ["/app"] {["/app/db" := "1"]}
          = (Ret (Store.wrapper, (Some {["/app/db" := "1"]}, None)),
             [EvDo 0%nat "PING" [] (RStatus "PONG") None;
              EvDo 0%nat "GET" [AStr "/app"] RNil None;
              EvDo 0%nat "SCAN" (scan_args 0 "/app/*")
                (RArray [RBulk "0"; RArray [RBulk "/app/db"]]) None;
              EvDo 0%nat "GET" [AStr "/app/db"] (RBulk "1") None],
             {["/app/db" := "1"]})) as Hrun by (vm_compute; reflexivity).
  split; [exact Hrun|].
  exact (GetValues_only_fetched Store.backend 3 Store.wrapper Store.wrapper ["/app"]
           _ None _ _ _ Hrun).
Defined.

Lemma GetValues_never_not_found_witness :
  GetValues Store.backend 3 Store.wrapper ["/gone"] ∅
  = (Ret (Store.wrapper, (Some ∅, None)),
     [EvDo 0%nat "PING" [] (RStatus "PONG") None;
      EvDo 0%nat "GET" [AStr "/gone"] RNil None;
      EvDo 0%nat "SCAN" (scan_args 0 "/gone/*") (RArray [RBulk "0"; RArray []]) None],
     ∅) ∧
  @None error ≠ Some ErrNil.
Proof.
  assert (GetValues Store.backend 3 Store.wrapper ["/gone"] ∅
          = (Ret (Store.wrapper, (Some ∅, None)),
             [EvDo 0%nat "PING" [] (RStatus "PONG") None;
              EvDo 0%nat "GET" [AStr "/gone"] RNil None;
              EvDo 0%nat "SCAN" (scan_args 0 "/gone/*")
                (RArray [RBulk "0"; RArray []]) None],
             ∅)) as Hrun by (vm_compute; reflexivity).
  split; [exact Hrun|].
  exact (GetValues_never_not_found Store.backend 3 Store.wrapper Store.wrapper ["/gone"]
           _ None _ _ _ Hrun).
Defined.

(** ** Keys with a trailing marker *)

Lemma HasPrefix_marker_inv (c : ascii) (s : string) :
  GoStrings.HasPrefix (String c s) "/*" = true -> ∃ rest, String c s = "/*" +:+ rest.
Proof.
  cbn [GoStrings.HasPrefix].
  intros [Hc Hs]%andb_prop. apply bool_decide_eq_true in Hc as <-.
  destruct s as [|d s]; [done|].
  apply andb_prop in Hs as [Hd _]. apply bool_decide_eq_true in Hd as <-.
  by exists s.
Qed.

Lemma lookup_key_trailing_le (n : nat) (k : string) :
  (String.length k ≤ n)%nat -> lookup_key (k +:+ "/*") = lookup_key k.
Proof.
  revert k. induction n as [n IH] using lt_wf_ind. intros k Hlen.
  destruct k as [|c k]; [done|].
  destruct (GoStrings.HasPrefix (String c k) "/*") eqn:Hp.
  - destruct (HasPrefix_marker_inv c k Hp) as [rest Hrest].
    change ("/*" +:+ rest) with (String "/" (String "*" rest)) in Hrest.
    injection Hrest as -> ->. cbn [String.length] in Hlen.
    change (lookup_key ("/*" +:+ (rest +:+ "/*")) = lookup_key ("/*" +:+ rest)).
    rewrite !lookup_key_marker.
    apply (IH (String.length rest)); lia.
  - change (String c k +:+ "/*") with (String c (k +:+ "/*")).
    rewrite (lookup_key_other c k Hp).
    rewrite lookup_key_other by apply (HasPrefix_marker_app c k "" Hp).
    f_equal. cbn [String.length] in Hlen.
    apply (IH (String.length k)); lia.
Qed.

(** X13: a key and the same key with the wildcard marker put after it are
    looked up as the same key. *)
Theorem lookup_key_trailing (k : string) : lookup_key (k +:+ "/*") = lookup_key k.
Proof. by apply (lookup_key_trailing_le (String.length k)). Qed.

Section TrailingMarker.

Context {W : Type} (be : Backend W).

Lemma range_keys_same_lookup (fuel : nat) (rc : option conn) (keys1 keys2 : list string)
    (vars : gmap string string) (w : W) :
  lookup_key <$> keys1 = lookup_key <$> keys2 ->
  range_keys be fuel rc keys1 vars w = range_keys be fuel rc keys2 vars w.
Proof.
  revert keys2 vars w.
  induction keys1 as [|k1 keys1 IH]; intros [|k2 keys2] vars w; try done.
  intros [= Hk Hrest]. cbn [range_keys]. rewrite Hk.
  unfold bind. destruct (conn_Do be rc "GET" [AStr (lookup_key k2)] w)
    as [[[[r e]| | |] evs] w1]; try done.
  destruct (Redigo.String r e) as [value [e'|]].
  - destruct (hard_error (Some e')); [done|].
    destruct (scan_loop be fuel rc (scan_pattern (lookup_key k2)) 0 vars w1)
      as [[[[v err|v]| | |] evs2] w2]; try done.
    by rewrite (IH keys2 v w2 Hrest).
  - by rewrite (IH keys2 (<[lookup_key k2:=value]> vars) w1 Hrest).
Qed.

(** X14: putting the wildcard marker after every requested key changes
    nothing about a fetch: the same calls are made and the same result
    comes back. *)
Theorem GetValues_trailing_marker (fuel : nat) (c : Client) (keys : list string) (w : W) :
  GetValues be fuel c ((λ k, k +:+ "/*") <$> keys) w = GetValues be fuel c keys w.
Proof.
  unfold GetValues, bind.
  destruct (connectedClient be c w) as [[[[c1 [rc e1]]| | |] evs1] w1]; try done.
  destruct (hard_error e1); [done|].
  rewrite (range_keys_same_lookup fuel rc ((λ k, k +:+ "/*") <$> keys) keys); [done|].
  rewrite <-list_fmap_compose. apply list_fmap_ext. intros _ k _.
  by apply (lookup_key_trailing_le (String.length k)).
Qed.

End TrailingMarker.

(** ** Fetching one key *)

Section OneKey.

Context {W : Type} (be : Backend W).

(** X15: when the direct lookup of a key gives a string, [GetValues] on
    that key makes no scan call: it returns the one-entry map from the
    key, markers taken out, to that string. *)
Theorem GetValues_direct_hit (fuel : nat) (c : Client) (cl : conn) (key v : string)
    (r : reply) (e : go_error) (w w1 w2 : W) :
  client c = Some cl ->
  be_do be cl "PING" [] w = ((RStatus "PONG", None), w1) ->
  be_do be cl "GET" [AStr (lookup_key key)] w1 = ((r, e), w2) ->
  Redigo.String r e = (v, None) ->
  GetValues be fuel c [key] w
  = (Ret (c, (Some {[lookup_key key := v]}, None)),
     [EvDo cl "PING" [] (RStatus "PONG") None;
      EvDo cl "GET" [AStr (lookup_key key)] r e], w2).
Proof.
  intros Hc Hping Hget Hs. unfold GetValues.
  erewrite bind_Ret by by apply connectedClient_pong.
  cbn [hard_error range_keys]. rewrite !bind_assoc.
  erewrite bind_Ret by by apply conn_Do_run.
  cbn beta iota. rewrite Hs. rewrite bind_ret_l.
  unfold ret, result_of, events_of, world_of. cbn [fst snd app].
  by rewrite insert_empty.
Qed.

(** A single scan page that lists nothing ends the pagination with the
    map as it was. *)
Lemma scan_loop_empty_page (fuel : nat) (cl : conn) (pattern : string) (idx : Z)
    (vars : gmap string string) (v0 : reply) (more : list reply) (w w1 : W) :
  be_do be cl "SCAN" (scan_args idx pattern) w
  = ((RArray (v0 :: RArray [] :: more), None), w1) ->
  (Redigo.Int v0 None).1 = 0 ->
  scan_loop be (S fuel) (Some cl) pattern idx vars w
  = (Ret (Continue vars),
     [EvDo cl "SCAN" (scan_args idx pattern) (RArray (v0 :: RArray [] :: more)) None],
     w1).
Proof.
  intros Hscan Hzero. cbn [scan_loop].
  erewrite bind_Ret by by apply conn_Do_run.
  cbn [Redigo.Values hard_error slice_index lookup list_lookup].
  rewrite bind_ret_l.
  destruct (Redigo.Int v0 None) as [idx' ierr]. cbn [fst] in Hzero. subst idx'.
  rewrite bind_ret_l. cbn [Redigo.Strings Redigo.strings_of range_items].
  rewrite bind_ret_l. rewrite decide_True by done.
  reflexivity.
Qed.

(** X16: a key that the direct lookup does not find and for which the scan
    lists nothing is left out: the map comes back empty, and no error
    with it. *)
Theorem GetValues_absent_key (fuel : nat) (c : Client) (cl : conn) (key : string)
    (v0 : reply) (more : list reply) (w w1 w2 w3 : W) :
  client c = Some cl ->
  be_do be cl "PING" [] w = ((RStatus "PONG", None), w1) ->
  be_do be cl "GET" [AStr (lookup_key key)] w1 = ((RNil, None), w2) ->
  be_do be cl "SCAN" (scan_args 0 (scan_pattern (lookup_key key))) w2
  = ((RArray (v0 :: RArray [] :: more), None), w3) ->
  (Redigo.Int v0 None).1 = 0 ->
  GetValues be (S fuel) c [key] w
  = (Ret (c, (Some ∅, None)),
     [EvDo cl "PING" [] (RStatus "PONG") None;
      EvDo cl "GET" [AStr (lookup_key key)] RNil None;
      EvDo cl "SCAN" (scan_args 0 (scan_pattern (lookup_key key)))
        (RArray (v0 :: RArray [] :: more)) None], w3).
Proof.
  intros Hc Hping Hget Hscan Hzero. unfold GetValues.
  erewrite bind_Ret by by apply connectedClient_pong.
  cbn [hard_error range_keys]. rewrite !bind_assoc.
  erewrite bind_Ret by by apply conn_Do_run.
  cbn [Redigo.String hard_error]. rewrite !bind_assoc.
  erewrite bind_Ret by by apply scan_loop_empty_page.
  cbn beta iota. rewrite !bind_ret_l.
  reflexivity.
Qed.

(** X17: on a store that answers the probe and hands back the value just
    set, [Set] of a key without a marker followed by [GetValues] of that
    key returns the map with exactly that key and value. *)
Theorem Set_then_GetValues (fuel : nat) (c : Client) (cl : conn) (key value : string)
    (r : reply) (w w1 w2 w3 w4 : W) :
  client c = Some cl ->
  no_marker key = true ->
  be_do be cl "PING" [] w = ((RStatus "PONG", None), w1) ->
  be_do be cl "SET" [AStr key; AStr value] w1 = ((r, None), w2) ->
  be_do be cl "PING" [] w2 = ((RStatus "PONG", None), w3) ->
  be_do be cl "GET" [AStr key] w3 = ((RBulk value, None), w4) ->
  Set_ be c key value w
  = (Ret (c, None),
     [EvDo cl "PING" [] (RStatus "PONG") None;
      EvDo cl "SET" [AStr key; AStr value] r None], w2) ∧
  GetValues be fuel c [key] w2
  = (Ret (c, (Some {[key := value]}, None)),
     [EvDo cl "PING" [] (RStatus "PONG") None;
      EvDo cl "GET" [AStr key] (RBulk value) None], w4).
Proof.
  intros Hc Hk Hping1 Hset Hping2 Hget. split.
  - unfold Set_.
    erewrite bind_Ret by by apply connectedClient_pong.
    cbn [hard_error].
    erewrite bind_Ret by by apply conn_Do_run.
    reflexivity.
  - unfold GetValues.
    erewrite bind_Ret by by apply connectedClient_pong.
    cbn [hard_error range_keys]. rewrite (lookup_key_no_marker key Hk), !bind_assoc.
    erewrite bind_Ret by by apply conn_Do_run.
    cbn [Redigo.String]. rewrite bind_ret_l.
    unfold ret, result_of, events_of, world_of. cbn [fst snd app].
    by rewrite insert_empty.
Qed.

End OneKey.

Lemma GetValues_direct_hit_witness :
  let m : gmap string string := {["/app/db" := "1"]} in
  client Store.wrapper = Some 0%nat ∧
  be_do Store.backend 0%nat "PING" [] m = ((RStatus "PONG", None), m) ∧
  be_do Store.backend 0%nat "GET" [AStr (lookup_key "/app/db/*")] m
  = ((RBulk "1", None), m) ∧
  Redigo.String (RBulk "1") None = ("1", None) ∧
  GetValues Store.backend 0 Store.wrapper ["/app/db/*"] m
  = (Ret (Store.wrapper, (Some {[lookup_key "/app/db/*" := "1"]}, None)),
     [EvDo 0%nat "PING" [] (RStatus "PONG") None;
      EvDo 0%nat "GET" [AStr (lookup_key "/app/db/*")] (RBulk "1") None], m).
Proof.
  cbn zeta. split; [reflexivity|]. split; [reflexivity|]. split; [reflexivity|].
  split; [reflexivity|].
  exact (GetValues_direct_hit Store.backend 0 Store.wrapper 0%nat "/app/db/*" "1"
           (RBulk "1") None {["/app/db" := "1"]} {["/app/db" := "1"]}
           {["/app/db" := "1"]} eq_refl eq_refl eq_refl eq_refl).
Defined.

Lemma GetValues_absent_key_witness :
  client Store.wrapper = Some 0%nat ∧
  be_do Store.backend 0%nat "PING" [] ∅ = ((RStatus "PONG", None), ∅) ∧
  be_do Store.backend 0%nat "GET" [AStr (lookup_key "/gone")] ∅ = ((RNil, None), ∅) ∧
  be_do Store.backend 0%nat "SCAN" (scan_args 0 (scan_pattern (lookup_key "/gone"))) ∅
  = ((RArray [RBulk "0"; RArray []], None), ∅) ∧
  (Redigo.Int (RBulk "0") None).1 = 0 ∧
  GetValues Store.backend 1 Store.wrapper ["/gone"] ∅
  = (Ret (Store.wrapper, (Some ∅, None)),
     [EvDo 0%nat "PING" [] (RStatus "PONG") None;
      EvDo 0%nat "GET" [AStr (lookup_key "/gone")] RNil None;
      EvDo 0%nat "SCAN" (scan_args 0 (scan_pattern (lookup_key "/gone")))
        (RArray [RBulk "0"; RArray []]) None], ∅).
Proof.
  split; [reflexivity|]. split; [reflexivity|]. split; [reflexivity|].
  split; [reflexivity|]. split; [reflexivity|].
  exact (GetValues_absent_key Store.backend 0 Store.wrapper 0%nat "/gone"
           (RBulk "0") [] ∅ ∅ ∅ ∅ eq_refl eq_refl eq_refl eq_refl eq_refl).
Defined.

Lemma Set_then_GetValues_witness :
  let m : gmap string string := {["/app/db" := "1"]} in
  client Store.wrapper = Some 0%nat ∧
  no_marker "/app/db" = true ∧
  be_do Store.backend 0%nat "PING" [] ∅ = ((RStatus "PONG", None), ∅) ∧
  be_do Store.backend 0%nat "SET" [AStr "/app/db"; AStr "1"] ∅
  = ((RStatus "OK", None), m) ∧
  be_do Store.backend 0%nat "PING" [] m = ((RStatus "PONG", None), m) ∧
  be_do Store.backend 0%nat "GET" [AStr "/app/db"] m = ((RBulk "1", None), m) ∧
  Set_ Store.backend Store.wrapper "/app/db" "1" ∅
  = (Ret (Store.wrapper, None),
     [EvDo 0%nat "PING" [] (RStatus "PONG") None;
      EvDo 0%nat "SET" [AStr "/app/db"; AStr "1"] (RStatus "OK") None], m) ∧
  GetValues Store.backend 0 Store.wrapper ["/app/db"] m
  = (Ret (Store.wrapper, (Some {["/app/db" := "1"]}, None)),
     [EvDo 0%nat "PING" [] (RStatus "PONG") None;
      EvDo 0%nat "GET" [AStr "/app/db"] (RBulk "1") None], m).
Proof.
  cbn zeta. split; [reflexivity|]. split; [reflexivity|]. split; [reflexivity|].
  split; [reflexivity|]. split; [reflexivity|]. split; [reflexivity|].
  exact (Set_then_GetValues Store.backend 0 Store.wrapper 0%nat "/app/db" "1"
           (RStatus "OK") ∅ ∅ {["/app/db" := "1"]} {["/app/db" := "1"]}
           {["/app/db" := "1"]} eq_refl eq_refl eq_refl eq_refl eq_refl eq_refl).
Defined.

(** A key that holds a marker is stored as it stands and looked up without
    the marker: the value set is not the value fetched. *)
Example Set_then_GetValues_marker_key :
  let m1 := world_of (Set_ Store.backend Store.wrapper "/a/*/b" "1" ∅) in
  m1 = {["/a/*/b" := "1"]} ∧
  result_of (GetValues Store.backend 3 Store.wrapper ["/a/*/b"] m1)
  = Ret (Store.wrapper, (Some ∅, None)).
Proof. cbn zeta. split; vm_compute; reflexivity. Qed.

(** ** The wait loop with the processor at large *)

Lemma main_loop_inv_init : MainLoop.inv MainLoop.init.
Proof. unfold MainLoop.inv. cbn. split_and!; try done; lia || constructor. Qed.

Lemma main_loop_inv_step (st st' : MainLoop.state) (a : MainLoop.action) :
  MainLoop.quiet a = true ->
  MainLoop.inv st -> MainLoop.step st a = Some st' -> MainLoop.inv st'.
Proof.
  unfold MainLoop.inv, MainLoop.step, MainLoop.panicked, MainLoop.close_done,
    MainLoop.with_proc.
  destruct st as [errs eclosed sigs closed sender delivered proc].
  cbn [MainLoop.proc MainLoop.errChan MainLoop.errClosed MainLoop.signalChan
       MainLoop.doneClosed MainLoop.doneSender MainLoop.delivered].
  intros Hq (-> & -> & Herrs & Hcount & Hopen & Hexit).
  destruct proc; [|done|done].
  destruct a as [s|[e|]| | | | | |]; try done.
  - intros [= <-]. cbn. case_decide; rewrite ?length_app; cbn;
      split_and!; try done; lia.
  - case_decide; [|done]. intros [= <-]. cbn. split_and!; try done.
    apply Forall_app. split; [done|]. by repeat constructor.
  - destruct errs as [|[e|] errs]; [done| |].
    + intros [= <-]. cbn. split_and!; try done. by inversion Herrs.
    + by inversion Herrs.
  - destruct sigs as [|s sigs]; [done|]. cbn [length] in Hcount.
    cbn [MainLoop.doneClosed MainLoop.doneSender].
    destruct closed; intros [= <-]; cbn; split_and!; try done; lia.
  - cbn [orb]. destruct closed; cbn; [|done]. intros [= <-]. cbn.
    split_and!; try done. by intros code [= <-].
Qed.

Lemma main_loop_inv_run (sched : list MainLoop.action) (st st' : MainLoop.state) :
  forallb MainLoop.quiet sched = true ->
  MainLoop.inv st -> MainLoop.run st sched = Some st' -> MainLoop.inv st'.
Proof.
  revert st. induction sched as [|a sched IH]; intros st; cbn [MainLoop.run forallb].
  - by intros _ ? [= <-].
  - intros [Ha Hrest]%andb_prop Hinv.
    destruct (MainLoop.step st a) as [st1|] eqn:Hstep; [|done].
    apply IH; [done|]. by eapply main_loop_inv_step.
Qed.

(** X18: as long as the processor leaves [doneChan] alone, does not close
    [errChan] and reports no nil error, whatever signals and errors arrive
    and whichever ready case each [select] takes: the process exits only
    with status 0, only after [doneChan] was closed and a signal was
    delivered; and as long as no signal was delivered, the loop keeps
    running. *)
Theorem main_loop_exit_only_after_signal (sched : list MainLoop.action)
    (st : MainLoop.state) :
  MainLoop.run MainLoop.init sched = Some st ->
  forallb MainLoop.quiet sched = true ->
  (∀ code, MainLoop.proc st = MainLoop.Exited code ->
           code = 0 ∧ MainLoop.doneClosed st = true ∧
           (1 ≤ MainLoop.delivered st)%nat) ∧
  (MainLoop.delivered st = 0%nat -> MainLoop.proc st = MainLoop.Running).
Proof.
  intros Hrun Hq.
  destruct (main_loop_inv_run sched _ _ Hq main_loop_inv_init Hrun)
    as (_ & _ & _ & Hcount & Hopen & Hexit).
  split.
  - intros code Hcode. destruct (MainLoop.doneClosed st) eqn:Hd.
    + split_and!; [by eapply Hexit|done|lia].
    + rewrite (Hopen eq_refl) in Hcode. done.
  - intros Hzero. destruct (MainLoop.doneClosed st) eqn:Hd; [lia|].
    by apply Hopen.
Qed.

(** X19: as long as the processor leaves [doneChan] alone, does not close
    [errChan] and reports no nil error, and at most one signal was
    delivered, the process has not panicked, whatever cases the [select]
    took. *)
Theorem main_loop_single_signal (sched : list MainLoop.action) (st : MainLoop.state) :
  MainLoop.run MainLoop.init sched = Some st ->
  forallb MainLoop.quiet sched = true ->
  (MainLoop.delivered st ≤ 1)%nat ->
  MainLoop.panicked st = false.
Proof.
  intros Hrun Hq Hone.
  destruct (main_loop_inv_run sched _ _ Hq main_loop_inv_init Hrun)
    as (_ & _ & _ & Hcount & Hopen & _).
  destruct (MainLoop.doneClosed st) eqn:Hd.
  - destruct (MainLoop.panicked st); [lia|done].
  - unfold MainLoop.panicked. by rewrite (Hopen eq_refl).
Qed.

Lemma main_loop_exit_only_after_signal_witness :
  let sched := [MainLoop.Report (Some (ErrOther "render failed"));
                MainLoop.Deliver Supervisor.SIGINT; MainLoop.SelectErr;
                MainLoop.SelectSignal; MainLoop.SelectDone] in
  let st := {| MainLoop.errChan := []; MainLoop.errClosed := false;
               MainLoop.signalChan := []; MainLoop.doneClosed := true;
               MainLoop.doneSender := false; MainLoop.delivered := 1;
               MainLoop.proc := MainLoop.Exited 0 |} in
  MainLoop.run MainLoop.init sched = Some st ∧
  forallb MainLoop.quiet sched = true ∧
  (∀ code, MainLoop.proc st = MainLoop.Exited code ->
           code = 0 ∧ MainLoop.doneClosed st = true ∧
           (1 ≤ MainLoop.delivered st)%nat) ∧
  (MainLoop.delivered st = 0%nat -> MainLoop.proc st = MainLoop.Running).
Proof.
  cbn zeta. split; [reflexivity|]. split; [reflexivity|].
  exact (main_loop_exit_only_after_signal
           [MainLoop.Report (Some (ErrOther "render failed"));
            MainLoop.Deliver Supervisor.SIGINT; MainLoop.SelectErr;
            MainLoop.SelectSignal; MainLoop.SelectDone] _ eq_refl eq_refl).
Defined.

Lemma main_loop_single_signal_witness :
  let sched := [MainLoop.Report (Some (ErrOther "render failed"));
                MainLoop.Deliver Supervisor.SIGTERM; MainLoop.SelectSignal] in
  let st := {| MainLoop.errChan := [Some (ErrOther "render failed")];
               MainLoop.errClosed := false;
               MainLoop.signalChan := []; MainLoop.doneClosed := true;
               MainLoop.doneSender := false; MainLoop.delivered := 1;
               MainLoop.proc := MainLoop.Running |} in
  MainLoop.run MainLoop.init sched = Some st ∧
  forallb MainLoop.quiet sched = true ∧
  (MainLoop.delivered st ≤ 1)%nat ∧
  MainLoop.panicked st = false.
Proof.
  cbn zeta. split; [reflexivity|]. split; [reflexivity|].
  assert (1 ≤ 1)%nat as Hle by lia. split; [exact Hle|].
  exact (main_loop_single_signal
           [MainLoop.Report (Some (ErrOther "render failed"));
            MainLoop.Deliver Supervisor.SIGTERM; MainLoop.SelectSignal] _
           eq_refl eq_refl Hle).
Defined.

(** Why the processor has to be quiet: when it closes [doneChan], the
    process exits though no signal was delivered; when a signal follows
    such a close, the loop's own close panics; and a nil error makes the
    loop panic when it is logged. *)
Example main_loop_processor_close_exits :
  MainLoop.run MainLoop.init [MainLoop.CloseDone; MainLoop.SelectDone]
  = Some {| MainLoop.errChan := []; MainLoop.errClosed := false;
            MainLoop.signalChan := []; MainLoop.doneClosed := true;
            MainLoop.doneSender := false; MainLoop.delivered := 0;
            MainLoop.proc := MainLoop.Exited 0 |}.
Proof. reflexivity. Qed.

Example main_loop_processor_close_then_signal :
  MainLoop.proc <$> MainLoop.run MainLoop.init
    [MainLoop.CloseDone; MainLoop.Deliver Supervisor.SIGINT; MainLoop.SelectSignal]
  = Some (MainLoop.Panicked "close of closed channel").
Proof. reflexivity. Qed.

Example main_loop_nil_error_panics :
  MainLoop.proc <$> MainLoop.run MainLoop.init [MainLoop.Report None; MainLoop.SelectErr]
  = Some (MainLoop.Panicked MainLoop.nil_deref).
Proof. reflexivity. Qed.
